(** * httptester: a shallow embedding of the request builder and the
      response wrapper, with the properties of its specification.

    The Go package is a fluent DSL: a [ReqBuilder] accumulates a request
    (method, URL, query, headers, body, hooks), [Do] sends it through a
    shared [*http.Client] and wraps the answer in a [Response] whose
    assertions report through an [onError] callback instead of failing.

    Go values are embedded as follows.
    - [string] and [[]byte] are Rocq strings (sequences of 8-bit characters).
    - [url.Values] and [http.Header] (both [map[string][]string]) are
      [gmap string (list string)].
    - [error] is the text of the error.
    - Callbacks ([onError], the before and after hooks) and the transport are
      observed through a trace of events kept in the [World], next to the
      store of [http.Client] values that builders point into.
    - What the package takes from the Go library (URL parsing, JSON codec,
      multipart writer, transport) is a [Platform]. *)

From Stdlib Require Import ZArith Ascii String DecimalString.
From stdpp Require Import gmap strings list fin_maps.

Local Open Scope string_scope.
Local Open Scope list_scope.

Definition error := string.

(** ** Maps of string lists: [url.Values] and [http.Header] *)

Module Values.
(** [func (v Values) Set(key, value string) { v[key] = []string{value} }]
    ([Set] is taken in Rocq, hence the name). *)
Definition Set_ (key value : string) (v : gmap string (list string))
  : gmap string (list string) :=
  <[key := [value]]> v.

(** [func (v Values) Add(key, value string) { v[key] = append(v[key], value) }] *)
Definition Add (key value : string) (v : gmap string (list string))
  : gmap string (list string) :=
  <[key := default [] (v !! key) ++ [value]]> v.

(** [Get]: the first value of the key, or the empty string. *)
Definition Get (key : string) (v : gmap string (list string)) : string :=
  match v !! key with
  | Some (x :: _) => x
  | _ => ""
  end.
End Values.

(** The loop shared by [Q], [Header] and [Form]:
    [for i := 0; i < len(args)/2; i++ { body(args[i*2], args[i*2+1]) }]. *)
Definition for_pairs {St : Type} (body : string → string → St → St)
    (args : list string) (s : St) : St :=
  foldl (λ s i,
           match args !! (i * 2)%nat, args !! (i * 2 + 1)%nat with
           | Some key, Some value => body key value s
           | _, _ => s
           end)
        s (seq 0 (length args / 2)%nat).

(** The key/value pairs an argument list denotes; a reference for the
    index loop above, not used by the embedded code. *)
Fixpoint pairs (args : list string) : list (string * string) :=
  match args with
  | key :: value :: rest => (key, value) :: pairs rest
  | _ => []
  end.

(** The values a call pairs with [key], in the order of the call. *)
Definition values_for (key : string) (ps : list (string * string)) : list string :=
  omap (λ kv, if decide (kv.1 = key) then Some kv.2 else None) ps.

(** ** Go library data the package handles *)

(** [url.URL], the fields the package and the model touch. *)
Record URL := {
  u_Scheme : string;
  u_Host : string;
  u_Path : string;
  u_RawQuery : string;
  u_Fragment : string
}.

(** [context.Context]: the background context or one the caller made. *)
Inductive Ctx :=
| Background
| CallerCtx (id : nat).

(** A finite stream: some bytes, then end of file or a read error. Content
    readers handed to the builder and response bodies are such streams. *)
Record Stream := {
  s_data : string;
  s_fail : option error
}.

(** The write side of an [io.Pipe] as its reader sees it: the bytes written
    so far and [wrerr], unset until the writer is closed. [io.EOF] is the
    error a plain [Close] stores. *)
Inductive pipe_error :=
| io_EOF
| pipe_failure (e : error).

Record Pipe := {
  written : string;
  wrerr : option pipe_error
}.

(** [io.Reader] values that end up in [ReqBuilder.body]. *)
Inductive Reader :=
| BytesReader (b : string)     (* bytes.NewReader(b) *)
| StringsReader (s : string)   (* strings.NewReader(s) *)
| PipeReader (p : Pipe)        (* the read end of io.Pipe() *)
| OtherReader (s : Stream).    (* a reader of the caller *)

(** What a consumer reading the reader to its end meets there:
    [Some None] is a clean end of file, [Some (Some e)] the read error [e],
    [None] a pipe nobody closed (the read never returns). *)
Definition body_end (r : Reader) : option (option error) :=
  match r with
  | BytesReader _ | StringsReader _ => Some None
  | PipeReader p =>
      match wrerr p with
      | None => None
      | Some io_EOF => Some None
      | Some (pipe_failure e) => Some (Some e)
      end
  | OtherReader s => Some (s_fail s)
  end.

(** [http.Request.Body]: nil, the [http.NoBody] sentinel, or a reader
    wrapped by [io.NopCloser]. *)
Inductive ReqBody :=
| BodyNil
| NoBody
| BodyOf (r : Reader).

(** The read error a request body ends in, if it ends in one. *)
Definition body_failure (body : ReqBody) : option error :=
  match body with
  | BodyOf r => match body_end r with Some (Some e) => Some e | _ => None end
  | _ => None
  end.

Record Request := {
  req_ctx : Ctx;
  req_Method : string;
  req_URL : URL;
  req_Header : gmap string (list string);
  req_Body : ReqBody;
  req_ContentLength : Z;
  req_Host : string
}.

(** [http.Response] as the transport returns it. *)
Record HTTPResponse := {
  res_StatusCode : Z;
  res_Header : gmap string (list string);
  res_Body : Stream;
  res_Request : Request
}.

(** [http.Client.CheckRedirect]: nil (the default policy, [None] below), the
    closure [Do] installs under [noFollow], or a policy of the caller. *)
Inductive CheckRedirectFn :=
| UseLastResponse
| CallerPolicy (id : nat).

Record Client := {
  CheckRedirect : option CheckRedirectFn
}.

#[global] Instance Client_inhabited : Inhabited Client :=
  populate {| CheckRedirect := None |}.

(** What [http.Client.Do] hands back: [(res, nil)], or [(res, err)] with
    [err] not nil ([res] is then nil except after a failed redirect check). *)
Inductive DoResult :=
| DoOk (res : HTTPResponse)
| DoErr (res : option HTTPResponse) (err : error).

Definition result_response (r : DoResult) : option HTTPResponse :=
  match r with DoOk res => Some res | DoErr res _ => res end.

Definition result_error (r : DoResult) : option error :=
  match r with DoOk _ => None | DoErr _ err => Some err end.

(** What the transport below [http.Client.Do] answers: a response, or a
    failure at some URL of the redirect chain with its cause. *)
Inductive SendResult :=
| SendOk (res : HTTPResponse)
| SendErr (res : option HTTPResponse) (at_url : string) (cause : error).

(** ** The Go library as a parameter *)

Class Platform := {
  (** [textproto.CanonicalMIMEHeaderKey] *)
  CanonicalMIMEHeaderKey : string → string;
  (** [url.Parse], [URL.String], [url.ParseQuery] with its error dropped
      as [URL.Query] does, [Values.Encode] *)
  url_Parse : string → URL + error;
  url_String : URL → string;
  url_ParseQuery : string → gmap string (list string);
  Values_Encode : gmap string (list string) → string;
  (** [removeEmptyPort] of net/http and [strconv.Quote] *)
  removeEmptyPort : string → string;
  strconv_Quote : string → string;
  (** the values handed to the codecs, [json.Marshal], and [json.Unmarshal]
      and [xml.Unmarshal], which yield the target as they leave it and the
      error *)
  Value : Type;
  json_Marshal : Value → string + error;
  json_Unmarshal : string → Value → Value * option error;
  xml_Unmarshal : string → Value → Value * option error;
  (** [multipart.Writer] over a pipe that holds [sofar] already: the bytes
      each call gets through and its error *)
  mp_FormDataContentType : string;
  mp_WriteField : string → string → string → string * option error;
  mp_CreateFormFile : string → string → string → string * option error;
  mp_PartWrite : string → string → string * option error;
  mp_Close : string → string * option error;
  (** the round trips of [http.Client], redirects included, under the
      client's settings *)
  client_send : Client → Request → SendResult
}.

(** ** The world: shared clients and the trace of callbacks *)

(** Calls that leave the package: the error sink [onError] (named by a
    number, so that [OnError] can replace it), the two hooks, the dispatch
    of a request by a client under the redirect policy it holds at that
    moment, and the closing of a response body. *)
Inductive event :=
| EvOnError (sink : nat) (err : error)
| EvBeforeRequest (req : Request)
| EvAfterRequest (hook : nat) (req : Request)
    (res : option HTTPResponse) (err : option error)
| EvDispatch (client : nat) (policy : option CheckRedirectFn) (req : Request)
| EvBodyClose.

(** [clients] maps the address of an [http.Client] to its value; an address
    nobody wrote holds the zero client. [trace] is in order of occurrence. *)
Record World := {
  clients : gmap nat Client;
  trace : list event
}.

Definition M (A : Type) : Type := World → A * World.

#[global] Instance M_ret : MRet M := λ A (a : A) (w : World), (a, w).
#[global] Instance M_bind : MBind M :=
  λ A B (f : A → M B) (m : M A) (w : World), let '(a, w') := m w in f a w'.

Definition emit (ev : event) : M unit :=
  λ w, (tt, {| clients := clients w; trace := trace w ++ [ev] |}).

(** The world once further events have occurred. *)
Definition after (w : World) (evs : list event) : World :=
  {| clients := clients w; trace := trace w ++ evs |}.

Definition get_CheckRedirect (c : nat) : M (option CheckRedirectFn) :=
  λ w, (CheckRedirect (clients w !!! c), w).

Definition set_CheckRedirect (c : nat) (f : option CheckRedirectFn) : M unit :=
  λ w, (tt, {| clients := <[c := {| CheckRedirect := f |}]> (clients w);
               trace := trace w |}).

(** The calls of the error sinks in a trace, in order: which sink, with what. *)
Definition all_reported (tr : list event) : list (nat * error) :=
  omap (λ ev, match ev with EvOnError s e => Some (s, e) | _ => None end) tr.

(** The policies under which a client dispatched, in order. *)
Definition dispatched_under (c : nat) (tr : list event)
  : list (option CheckRedirectFn) :=
  omap (λ ev, match ev with
              | EvDispatch c' pol _ => if decide (c' = c) then Some pol else None
              | _ => None
              end) tr.

(** ** Formatting *)

(** [%d] *)
Definition fmt_d (z : Z) : string := NilZero.string_of_int (Z.to_int z).

Fixpoint join (sep : string) (l : list string) : string :=
  match l with
  | [] => ""
  | [x] => x
  | x :: rest => x +:+ sep +:+ join sep rest
  end.

(** [%v] of a [[]int]: the numbers between brackets, separated by spaces. *)
Definition fmt_v (l : list Z) : string := "[" +:+ join " " (fmt_d <$> l) +:+ "]".

(** [strings.Contains] *)
Fixpoint strings_Contains (s substr : string) : bool :=
  String.prefix substr s ||
  match s with
  | EmptyString => false
  | String _ s' => strings_Contains s' substr
  end.

(** [s[:n]] for [n] within the string. *)
Fixpoint take_bytes (n : nat) (s : string) : string :=
  match n, s with
  | S n', String c s' => String c (take_bytes n' s')
  | _, _ => ""
  end.

(** ** net/http *)

Definition byte_between (lo hi : nat) (c : ascii) : bool :=
  (lo <=? nat_of_ascii c)%nat && (nat_of_ascii c <=? hi)%nat.

(** [httpguts.IsTokenRune]: the characters of an HTTP token. *)
Definition isTokenByte (c : ascii) : bool :=
  byte_between 48 57 c || byte_between 65 90 c || byte_between 97 122 c ||
  bool_decide (c ∈ list_ascii_of_string "!#$%&'*+-.^_`|~").

(** [validMethod]: not empty, and only token characters. *)
Definition validMethod (method : string) : bool :=
  negb (String.eqb method "") && forallb isTokenByte (list_ascii_of_string method).

Definition lower_byte (c : ascii) : ascii :=
  if byte_between 65 90 c then ascii_of_nat (nat_of_ascii c + 32) else c.

Fixpoint strings_ToLower (s : string) : string :=
  match s with
  | EmptyString => EmptyString
  | String c s' => String (lower_byte c) (strings_ToLower s')
  end.

(** [urlErrorOp]: ["Get"] for the empty method; for a method that is
    printable ASCII throughout, its first byte as it is followed by the rest
    in lower case; any other method as it is. *)
Definition urlErrorOp (method : string) : string :=
  match method with
  | EmptyString => "Get"
  | String c rest =>
      if forallb (byte_between 32 126) (list_ascii_of_string method)
      then String c (strings_ToLower rest)
      else method
  end.

(** [url.Error] and its message, [fmt.Sprintf("%s %q: %s", Op, URL, Err)]. *)
Record url_Error := {
  Op : string;
  ue_URL : string;
  Err : error
}.

Section Library.
Context {P : Platform}.

Definition url_Error_message (e : url_Error) : error :=
  Op e +:+ " " +:+ strconv_Quote (ue_URL e) +:+ ": " +:+ Err e.

(** [http.Header]: keys are canonicalised on the way in and on lookup. *)
Definition Header_Set (key value : string) (h : gmap string (list string)) :=
  Values.Set_ (CanonicalMIMEHeaderKey key) value h.

Definition Header_Add (key value : string) (h : gmap string (list string)) :=
  Values.Add (CanonicalMIMEHeaderKey key) value h.

Definition Header_Get (key : string) (h : gmap string (list string)) : string :=
  Values.Get (CanonicalMIMEHeaderKey key) h.

(** [URL.Query] *)
Definition url_Query (u : URL) : gmap string (list string) :=
  url_ParseQuery (u_RawQuery u).

(** [json.Marshal] as Go returns it: the bytes are nil when it fails. *)
Definition Marshal (j : Value) : string * option error :=
  match json_Marshal j with
  | inl jsonBytes => (jsonBytes, None)
  | inr err => ("", Some err)
  end.

(** [http.NewRequestWithContext]. A body whose length is known
    ([bytes.Reader], [strings.Reader]) sets [ContentLength], and becomes
    [NoBody] when that length is zero. *)
Definition NewRequestWithContext (ctx : option Ctx) (method url : string)
    (body : option Reader) : Request + error :=
  let method := if String.eqb method "" then "GET" else method in
  if negb (validMethod method) then
    inr ("net/http: invalid method " +:+ strconv_Quote method)
  else
    match ctx with
    | None => inr "net/http: nil Context"
    | Some ctx =>
        match url_Parse url with
        | inr err => inr err
        | inl u =>
            let host := removeEmptyPort (u_Host u) in
            let u := {| u_Scheme := u_Scheme u; u_Host := host;
                        u_Path := u_Path u; u_RawQuery := u_RawQuery u;
                        u_Fragment := u_Fragment u |} in
            let '(rc, len) :=
              match body with
              | None => (BodyNil, 0%Z)
              | Some (BytesReader b) =>
                  let n := Z.of_nat (String.length b) in
                  (if (n =? 0)%Z then NoBody else BodyOf (BytesReader b), n)
              | Some (StringsReader s) =>
                  let n := Z.of_nat (String.length s) in
                  (if (n =? 0)%Z then NoBody else BodyOf (StringsReader s), n)
              | Some r => (BodyOf r, 0%Z)
              end in
            inl {| req_ctx := ctx; req_Method := method; req_URL := u;
                   req_Header := ∅; req_Body := rc;
                   req_ContentLength := len; req_Host := host |}
        end
    end.

(** [http.Client.Do] on the client at address [c]: the client is read
    where it stands, and every failure comes back as a [url.Error] made of
    the method of the request, the URL the transport was at and the cause. *)
Definition client_Do (c : nat) (req : Request) : M DoResult :=
  λ w,
    let cl := clients w !!! c in
    let r := match client_send cl req with
             | SendOk res => DoOk res
             | SendErr res at_url cause =>
                 DoErr res (url_Error_message
                              {| Op := urlErrorOp (req_Method req);
                                 ue_URL := at_url; Err := cause |})
             end in
    (r, {| clients := clients w;
           trace := trace w ++ [EvDispatch c (CheckRedirect cl) req] |}).

(** [ioutil.ReadAll] *)
Definition ReadAll (s : Stream) : string * option error :=
  (s_data s, s_fail s).
End Library.

(** ** io.Pipe *)

(** [PipeWriter.CloseWithError(err)]: a nil error stands for [io.EOF], and a
    pipe already closed keeps its first error. *)
Definition pipe_CloseWithError (err : option error) (p : Pipe) : Pipe :=
  match wrerr p with
  | Some _ => p
  | None =>
      {| written := written p;
         wrerr := Some (match err with
                        | None => io_EOF
                        | Some e => pipe_failure e
                        end) |}
  end.

(** [PipeWriter.Close()] *)
Definition pipe_Close (p : Pipe) : Pipe := pipe_CloseWithError None p.

(** Bytes that got through a write; a closed pipe takes none. *)
Definition pipe_Write (out : string) (p : Pipe) : Pipe :=
  match wrerr p with
  | Some _ => p
  | None => {| written := written p +:+ out; wrerr := None |}
  end.

(** ** The request builder *)

(** [client] is the address of the [http.Client] in the world and [onError]
    the name of the sink. [beforeRequest] is what the hook makes of the
    request it is given; [afterRequest] names a hook that only observes.
    Neither hook touches the clients. *)
Record ReqBuilder := {
  baseURL : string;
  url : string;
  method : string;
  query : gmap string (list string);
  headers : gmap string (list string);
  noFollow : bool;
  body : option Reader;
  client : nat;
  beforeRequest : option (Request → Request);
  afterRequest : option nat;
  context : option Ctx;
  onError : nat
}.

(** ** The response wrapper *)

Module Response.
(** [raw] is the embedded [*http.Response]. *)
Record t := {
  raw : HTTPResponse;
  req : Request;
  onError : nat;
  Body : string;
  URL : URL
}.

Section Methods.
Context {P : Platform}.

(** [fmt.Errorf("%s %s: %s", r.req.Method, r.req.URL.String(), err)] *)
Definition err_message (r : t) (e : error) : error :=
  req_Method (req r) +:+ " " +:+ url_String (req_URL (req r)) +:+ ": " +:+ e.

Definition err (r : t) (e : error) : M unit :=
  emit (EvOnError (onError r) (err_message r e)).

Definition bodyExcerpt (r : t) : string :=
  if (100 <? String.length (Body r))%nat
  then take_bytes 100 (Body r) +:+ "..."
  else Body r.

Definition Status (statuses : list Z) (r : t) : M t :=
  if (0 <? length statuses)%nat then
    let ok := foldl (λ ok status,
                       if bool_decide (res_StatusCode (raw r) = status)
                       then true else ok) false statuses in
    if negb ok then
      err r ("expected status " +:+ fmt_v statuses +:+ " got "
             +:+ fmt_d (res_StatusCode (raw r)) +:+ ": " +:+ bodyExcerpt r) ;;
      mret r
    else mret r
  else mret r.

Definition JSON (j : Value) (r : t) : M (option Value) :=
  let contentType := Header_Get "Content-Type" (res_Header (raw r)) in
  (if negb (String.prefix "application/json" contentType) then
     err r ("Content-Type is not application/json, got " +:+ contentType
            +:+ ": " +:+ bodyExcerpt r)
   else mret tt) ;;
  let '(j', e) := json_Unmarshal (Body r) j in
  match e with
  | Some e => err r e ;; mret None
  | None => mret (Some j')
  end.

Definition XML (j : Value) (r : t) : M (option Value) :=
  let contentType := Header_Get "Content-Type" (res_Header (raw r)) in
  (if negb (String.prefix "application/xml" contentType)
      && negb (String.prefix "text/xml" contentType) then
     err r ("Content-Type is not application/xml or text/xml, got "
            +:+ contentType +:+ ": " +:+ bodyExcerpt r)
   else mret tt) ;;
  let '(j', e) := xml_Unmarshal (Body r) j in
  match e with
  | Some e => err r e ;; mret None
  | None => mret (Some j')
  end.

Definition BodyStr (r : t) : string := Body r.

Definition Contains (substr : string) (r : t) : M t :=
  if negb (strings_Contains (BodyStr r) substr) then
    err r ("body does not contain " +:+ substr +:+ ": " +:+ bodyExcerpt r) ;;
    mret r
  else mret r.

Definition Eq (substr : string) (r : t) : M t :=
  if negb (String.eqb (BodyStr r) substr) then
    err r ("body does not equal " +:+ substr +:+ ": " +:+ bodyExcerpt r) ;;
    mret r
  else mret r.

Definition HeaderEq (key value : string) (r : t) : M t :=
  let resVal := Header_Get key (res_Header (raw r)) in
  if negb (String.eqb resVal value) then
    err r ("header " +:+ key +:+ ": expected " +:+ resVal +:+ " to equal "
           +:+ value) ;;
    mret r
  else mret r.
End Methods.
End Response.

Section Package.
Context {P : Platform}.

(** [NewResponse]: the body is read whole and closed whatever happens. *)
Definition NewResponse (res : HTTPResponse) (req : Request) (onError : nat)
  : M (option Response.t) :=
  let '(body, err) := ReadAll (res_Body res) in
  match err with
  | Some err =>
      emit (EvOnError onError err) ;;
      emit EvBodyClose ;;
      mret None
  | None =>
      emit EvBodyClose ;;
      mret (Some {| Response.raw := res; Response.req := req;
                    Response.onError := onError; Response.Body := body;
                    Response.URL := req_URL (res_Request res) |})
  end.

Definition NewReqBuilder (baseURL : string) (client : nat) (onError : nat)
  : ReqBuilder :=
  {| baseURL := baseURL; url := ""; method := ""; query := ∅; headers := ∅;
     noFollow := false; body := None; client := client;
     beforeRequest := None; afterRequest := None; context := None;
     onError := onError |}.

Definition Method (method url : string) (b : ReqBuilder) : M ReqBuilder :=
  mret {| baseURL := baseURL b; url := url; method := method;
          query := query b; headers := headers b; noFollow := noFollow b;
          body := body b; client := client b;
          beforeRequest := beforeRequest b; afterRequest := afterRequest b;
          context := context b; onError := onError b |}.

Definition GET (url : string) := Method "GET" url.
Definition POST (url : string) := Method "POST" url.
Definition PUT (url : string) := Method "PUT" url.
Definition DELETE (url : string) := Method "DELETE" url.

Definition NoFollow (b : ReqBuilder) : M ReqBuilder :=
  mret {| baseURL := baseURL b; url := url b; method := method b;
          query := query b; headers := headers b; noFollow := true;
          body := body b; client := client b;
          beforeRequest := beforeRequest b; afterRequest := afterRequest b;
          context := context b; onError := onError b |}.

Definition with_query (q : gmap string (list string)) (b : ReqBuilder) :=
  {| baseURL := baseURL b; url := url b; method := method b;
     query := q; headers := headers b; noFollow := noFollow b;
     body := body b; client := client b;
     beforeRequest := beforeRequest b; afterRequest := afterRequest b;
     context := context b; onError := onError b |}.

Definition with_headers (h : gmap string (list string)) (b : ReqBuilder) :=
  {| baseURL := baseURL b; url := url b; method := method b;
     query := query b; headers := h; noFollow := noFollow b;
     body := body b; client := client b;
     beforeRequest := beforeRequest b; afterRequest := afterRequest b;
     context := context b; onError := onError b |}.

(** One turn of the loop of [Q]: [keys] holds the keys this call has met. *)
Definition Q_body (key value : string)
    (st : gmap string bool * gmap string (list string)) :=
  let '(keys, q) := st in
  (<[key := true]> keys,
   match keys !! key with
   | Some _ => Values.Add key value q
   | None => Values.Set_ key value q
   end).

Definition Q (args : list string) (b : ReqBuilder) : M ReqBuilder :=
  mret (with_query (for_pairs Q_body args (∅, query b)).2 b).

Definition Header (args : list string) (b : ReqBuilder) : M ReqBuilder :=
  mret (with_headers (for_pairs Header_Set args (headers b)) b).

Definition Auth (auth : string) := Header ["Authorization"; auth].
Definition Bearer (bearer : string) := Auth ("Bearer " +:+ bearer).

Definition Body (reader : option Reader) (b : ReqBuilder) : M ReqBuilder :=
  mret {| baseURL := baseURL b; url := url b; method := method b;
          query := query b; headers := headers b; noFollow := noFollow b;
          body := reader; client := client b;
          beforeRequest := beforeRequest b; afterRequest := afterRequest b;
          context := context b; onError := onError b |}.

Definition Form (args : list string) (b : ReqBuilder) : M ReqBuilder :=
  let q := for_pairs Values.Set_ args ∅ in
  b ← Header ["Content-Type"; "application/x-www-form-urlencoded"] b;
  Body (Some (StringsReader (Values_Encode q))) b.

Definition JSON (j : Value) (b : ReqBuilder) : M ReqBuilder :=
  b ← Header ["Content-Type"; "application/json"] b;
  let '(jsonBytes, err) := Marshal j in
  (match err with
   | Some err => emit (EvOnError (onError b) err)
   | None => mret tt
   end) ;;
  Body (Some (BytesReader jsonBytes)) b.

(** *** The goroutine of [File] *)

(** [for k, v := range extra { err = writer.WriteField(k, v) ... }], the
    fields in the order the map yields them; stops at the first error. *)
Fixpoint write_fields (extra : list (string * string)) (p : Pipe)
  : Pipe * option error :=
  match extra with
  | [] => (p, None)
  | (k, v) :: rest =>
      let '(out, err) := mp_WriteField (written p) k v in
      let p := pipe_Write out p in
      match err with
      | Some e => (p, Some e)
      | None => write_fields rest p
      end
  end.

(** [io.Copy(part, reader)]: the data of the stream goes to the part; a
    failed write ends the copy, otherwise the stream's own error does. *)
Definition io_Copy (reader : Stream) (p : Pipe) : Pipe * option error :=
  let '(out, werr) := mp_PartWrite (written p) (s_data reader) in
  (pipe_Write out p,
   match werr with
   | Some e => Some e
   | None => s_fail reader
   end).

(** [writer.Close()]: the closing boundary; its error is dropped. *)
Definition writer_Close (p : Pipe) : Pipe :=
  pipe_Write (mp_Close (written p)).1 p.

(** The deferred [func() { if err == nil { w.Close() } }()]. *)
Definition close_if_nil (err : option error) (p : Pipe) : Pipe :=
  match err with
  | None => pipe_Close p
  | Some _ => p
  end.

(** The goroutine run to its end, deferred calls included; the result is
    the pipe as it leaves it. *)
Definition producer (fieldName fileName : string) (reader : Stream)
    (extra : list (string * string)) : Pipe :=
  let p := {| written := ""; wrerr := None |} in
  let '(p, err) := write_fields extra p in
  match err with
  | Some e => close_if_nil err (pipe_CloseWithError (Some e) p)
  | None =>
      let '(out, err) := mp_CreateFormFile (written p) fieldName fileName in
      let p := pipe_Write out p in
      match err with
      | Some e => close_if_nil err (pipe_CloseWithError (Some e) p)
      | None =>
          let '(p, err) := io_Copy reader p in
          match err with
          | Some e =>
              close_if_nil err (writer_Close (pipe_CloseWithError (Some e) p))
          | None => close_if_nil err (writer_Close p)
          end
      end
  end.

(** [File]: the body is the read end of the pipe the goroutine feeds. The
    pipe blocks each write until it is read, so what the reader sees is
    what the goroutine does, in its order. *)
Definition File (fieldName fileName : string) (reader : Stream)
    (extra : list (string * string)) (b : ReqBuilder) : M ReqBuilder :=
  let r := PipeReader (producer fieldName fileName reader extra) in
  b ← Header ["Content-Type"; mp_FormDataContentType] b;
  Body (Some r) b.

Definition OnError (f : nat) (b : ReqBuilder) : M ReqBuilder :=
  mret {| baseURL := baseURL b; url := url b; method := method b;
          query := query b; headers := headers b; noFollow := noFollow b;
          body := body b; client := client b;
          beforeRequest := beforeRequest b; afterRequest := afterRequest b;
          context := context b; onError := f |}.

Definition BeforeWithRequest (f : Request → Request) (b : ReqBuilder)
  : M ReqBuilder :=
  mret {| baseURL := baseURL b; url := url b; method := method b;
          query := query b; headers := headers b; noFollow := noFollow b;
          body := body b; client := client b;
          beforeRequest := Some f; afterRequest := afterRequest b;
          context := context b; onError := onError b |}.

(** [f] changes the request in place; the wrapper hands the same request
    back. *)
Definition BeforeRequest (f : Request → Request) := BeforeWithRequest f.

Definition AfterRequest (f : nat) (b : ReqBuilder) : M ReqBuilder :=
  mret {| baseURL := baseURL b; url := url b; method := method b;
          query := query b; headers := headers b; noFollow := noFollow b;
          body := body b; client := client b;
          beforeRequest := beforeRequest b; afterRequest := Some f;
          context := context b; onError := onError b |}.

(** The method [Context] of the builder; a nil context is [None]. *)
Definition Context_ (ctx : option Ctx) (b : ReqBuilder) : M ReqBuilder :=
  mret {| baseURL := baseURL b; url := url b; method := method b;
          query := query b; headers := headers b; noFollow := noFollow b;
          body := body b; client := client b;
          beforeRequest := beforeRequest b; afterRequest := afterRequest b;
          context := ctx; onError := onError b |}.

(** [for k, vs := range m { for _, v := range vs { add(k, v) } }] *)
Definition add_all (add : string → string → gmap string (list string)
                          → gmap string (list string))
    (m acc : gmap string (list string)) : gmap string (list string) :=
  map_fold (λ k vs acc, foldl (λ acc v, add k v acc) acc vs) acc m.

(** The URL of [Do] with the query of the builder merged in. *)
Definition resolve_query (b : ReqBuilder) (u : URL) : URL :=
  if (0 <? size (query b))%nat then
    let q := add_all Values.Add (query b) (url_Query u) in
    {| u_Scheme := u_Scheme u; u_Host := u_Host u; u_Path := u_Path u;
       u_RawQuery := Values_Encode q; u_Fragment := u_Fragment u |}
  else u.

(** The headers of the builder put on the request, and [Host] with them. *)
Definition apply_headers (b : ReqBuilder) (req : Request) : Request :=
  let h := add_all Header_Add (headers b) (req_Header req) in
  let host := Header_Get "Host" (headers b) in
  {| req_ctx := req_ctx req; req_Method := req_Method req;
     req_URL := req_URL req; req_Header := h; req_Body := req_Body req;
     req_ContentLength := req_ContentLength req;
     req_Host := if String.eqb host "" then req_Host req else host |}.

Definition Do (b : ReqBuilder) : M (option Response.t) :=
  match url_Parse (baseURL b +:+ url b) with
  | inr err => emit (EvOnError (onError b) err) ;; mret None
  | inl u =>
      let u := resolve_query b u in
      let ctx := match context b with
                 | None => Background
                 | Some ctx => ctx
                 end in
      match NewRequestWithContext (Some ctx) (method b) (url_String u) (body b) with
      | inr err => emit (EvOnError (onError b) err) ;; mret None
      | inl req =>
          let req := apply_headers b req in
          oldCheckRedirect ← get_CheckRedirect (client b);
          (if noFollow b
           then set_CheckRedirect (client b) (Some UseLastResponse)
           else mret tt) ;;
          req ← match beforeRequest b with
                | Some f => emit (EvBeforeRequest req) ;; mret (f req)
                | None => mret req
                end;
          r ← client_Do (client b) req;
          (match afterRequest b with
           | Some f =>
               emit (EvAfterRequest f req (result_response r) (result_error r))
           | None => mret tt
           end) ;;
          set_CheckRedirect (client b) oldCheckRedirect ;;
          match r with
          | DoErr _ err => emit (EvOnError (onError b) err) ;; mret None
          | DoOk res => NewResponse res req (onError b)
          end
      end
  end.

(** *** The course of [Do], step by step

    These name the stages of [Do] for the statements below; [Do] itself
    is the definition above. *)

(** The request as it stands when [Do] turns to the client, or the error
    that made it give up before. *)
Definition built_request (b : ReqBuilder) : Request + error :=
  match url_Parse (baseURL b +:+ url b) with
  | inr err => inr err
  | inl u =>
      let ctx := match context b with
                 | None => Background
                 | Some ctx => ctx
                 end in
      match NewRequestWithContext (Some ctx) (method b)
              (url_String (resolve_query b u)) (body b) with
      | inr err => inr err
      | inl req => inl (apply_headers b req)
      end
  end.

(** The request after the before hook. *)
Definition hooked (b : ReqBuilder) (req : Request) : Request :=
  match beforeRequest b with
  | Some f => f req
  | None => req
  end.

Definition before_events (b : ReqBuilder) (req : Request) : list event :=
  match beforeRequest b with
  | Some _ => [EvBeforeRequest req]
  | None => []
  end.

Definition after_events (b : ReqBuilder) (req : Request) (r : DoResult)
  : list event :=
  match afterRequest b with
  | Some f => [EvAfterRequest f req (result_response r) (result_error r)]
  | None => []
  end.

(** A request with its body replaced by [http.NoBody]. *)
Definition with_NoBody (req : Request) : Request :=
  {| req_ctx := req_ctx req; req_Method := req_Method req;
     req_URL := req_URL req; req_Header := req_Header req;
     req_Body := NoBody; req_ContentLength := req_ContentLength req;
     req_Host := req_Host req |}.

(** A builder with its headers and body replaced. *)
Definition with_headers_body (h : gmap string (list string))
    (r : option Reader) (b : ReqBuilder) : ReqBuilder :=
  {| baseURL := baseURL b; url := url b; method := method b;
     query := query b; headers := h; noFollow := noFollow b;
     body := r; client := client b;
     beforeRequest := beforeRequest b; afterRequest := afterRequest b;
     context := context b; onError := onError b |}.

(** The client of the builder as the transport finds it. *)
Definition client_at_dispatch (b : ReqBuilder) (w : World) : Client :=
  if noFollow b then {| CheckRedirect := Some UseLastResponse |}
  else clients w !!! client b.

(** What [client.Do] returns for the builder's request in world [w]. *)
Definition dispatch_result (b : ReqBuilder) (w : World) (req : Request)
  : DoResult :=
  match client_send (client_at_dispatch b w) req with
  | SendOk res => DoOk res
  | SendErr res at_url cause =>
      DoErr res (url_Error_message
                   {| Op := urlErrorOp (req_Method req);
                      ue_URL := at_url; Err := cause |})
  end.

(** The events of [NewResponse]. *)
Definition response_events (sink : nat) (res : HTTPResponse) : list event :=
  match s_fail (res_Body res) with
  | Some err => [EvOnError sink err; EvBodyClose]
  | None => [EvBodyClose]
  end.

(** The wrapper [NewResponse] returns, if the body could be read. *)
Definition wrapped (sink : nat) (res : HTTPResponse) (req : Request)
  : option Response.t :=
  match s_fail (res_Body res) with
  | Some _ => None
  | None =>
      Some {| Response.raw := res; Response.req := req;
              Response.onError := sink; Response.Body := s_data (res_Body res);
              Response.URL := req_URL (res_Request res) |}
  end.

(** The clients once [Do] has written the saved policy back. *)
Definition restored_clients (b : ReqBuilder) (w : World) : gmap nat Client :=
  <[client b := {| CheckRedirect := CheckRedirect (clients w !!! client b) |}]>
    (clients w).
End Package.

(** The [Q] of the earlier revision of the builder (request.go as it stands
    next to the current one): every pair is a [Set]. *)
Module Legacy.
Definition Q (args : list string) (b : ReqBuilder) : M ReqBuilder :=
  mret (with_query (for_pairs Values.Set_ args (query b)) b).
End Legacy.

(** ** A platform to run the package on

    A small stand-in for the Go library and a test server, used to evaluate
    the package on concrete requests. *)
Module Sample.
Inductive value :=
| VNull
| VInt (n : Z)
| VStr (s : string)
| VChan.                       (* a Go channel: json.Marshal rejects it *)

Definition dquote : string := String (ascii_of_nat 34) EmptyString.

Definition newline : string := String (ascii_of_nat 10) EmptyString.

Definition quote (s : string) : string := dquote +:+ s +:+ dquote.

Definition marshal (v : value) : string + error :=
  match v with
  | VNull => inl "null"
  | VInt n => inl (fmt_d n)
  | VStr s => inl (quote s)
  | VChan => inr "json: unsupported type: chan int"
  end.

Definition unmarshal (data : string) (target : value) : value * option error :=
  if String.eqb data "null" then (VNull, None)
  else if String.eqb data "" then (target, Some "unexpected end of JSON input")
  else match NilZero.int_of_string data with
       | Some n => (VInt (Z.of_int n), None)
       | None => (target, Some "invalid character looking for beginning of value")
       end.

Definition upper_byte (c : ascii) : ascii :=
  if byte_between 97 122 c then ascii_of_nat (nat_of_ascii c - 32) else c.

Fixpoint canonical (upper : bool) (s : string) : string :=
  match s with
  | EmptyString => EmptyString
  | String c s' =>
      String (if upper then upper_byte c else lower_byte c)
             (canonical (Ascii.eqb c "-") s')
  end.

(** Splits at the first ['?']. *)
Fixpoint split_query (s : string) : string * string :=
  match s with
  | EmptyString => ("", "")
  | String c s' =>
      if Ascii.eqb c "?" then ("", s')
      else let '(p, q) := split_query s' in (String c p, q)
  end.

Definition parse (s : string) : URL + error :=
  if String.prefix ":" s then
    inr ("parse " +:+ quote s +:+ ": missing protocol scheme")
  else
    let '(p, q) := split_query s in
    inl {| u_Scheme := ""; u_Host := ""; u_Path := p; u_RawQuery := q;
           u_Fragment := "" |}.

Definition to_string (u : URL) : string :=
  if String.eqb (u_RawQuery u) "" then u_Path u
  else u_Path u +:+ "?" +:+ u_RawQuery u.

Definition encode (v : gmap string (list string)) : string :=
  join "&" (flat_map (λ kv, (λ x, kv.1 +:+ "=" +:+ x) <$> kv.2) (map_to_list v)).

(** A pipe whose reader gives up after 64 bytes: a write that would go
    beyond gets through up to there and fails. *)
Definition limit : nat := 64.

Definition write (sofar chunk : string) : string * option error :=
  if (String.length sofar + String.length chunk <=? limit)%nat then (chunk, None)
  else (take_bytes (limit - String.length sofar) chunk,
        Some "io: read/write on closed pipe").

Definition bytes_of (body : ReqBody) : string :=
  match body with
  | BodyOf (BytesReader b) => b
  | BodyOf (StringsReader s) => s
  | BodyOf (PipeReader p) => written p
  | BodyOf (OtherReader s) => s_data s
  | _ => ""
  end.

Definition answer (code : Z) (ctype body : string) (req : Request) :=
  {| res_StatusCode := code;
     res_Header := {[ "Content-Type" := [ctype] ]};
     res_Body := {| s_data := body; s_fail := None |};
     res_Request := req |}.

Definition moved (path : string) (req : Request) : Request :=
  {| req_ctx := req_ctx req; req_Method := req_Method req;
     req_URL := {| u_Scheme := ""; u_Host := ""; u_Path := path;
                   u_RawQuery := ""; u_Fragment := "" |};
     req_Header := req_Header req; req_Body := req_Body req;
     req_ContentLength := req_ContentLength req; req_Host := req_Host req |}.

(** The test server: ["/"] answers 409, ["/redirect"] redirects to
    ["/landed"], ["/down"] is unreachable, ["/cut"] breaks off its answer,
    anything else echoes the request body as JSON. A request body that
    fails while it is read fails the exchange. *)
Definition send (cl : Client) (req : Request) : SendResult :=
  let here := to_string (req_URL req) in
  match body_failure (req_Body req) with
  | Some e => SendErr None here e
  | None =>
      let path := u_Path (req_URL req) in
      if String.eqb path "/" then
        SendOk (answer 409 "text/plain" ("Already exists" +:+ newline) req)
      else if String.eqb path "/redirect" then
        match CheckRedirect cl with
        | Some UseLastResponse => SendOk (answer 302 "text/plain" "" req)
        | _ => SendOk (answer 200 "text/plain" "landed" (moved "/landed" req))
        end
      else if String.eqb path "/down" then
        SendErr None here "dial tcp: connection refused"
      else if String.eqb path "/cut" then
        SendOk {| res_StatusCode := 200; res_Header := ∅;
                  res_Body := {| s_data := "par"; s_fail := Some "unexpected EOF" |};
                  res_Request := req |}
      else SendOk (answer 200 "application/json" (bytes_of (req_Body req)) req)
  end.

Definition platform : Platform :=
  {| CanonicalMIMEHeaderKey := canonical true;
     url_Parse := parse;
     url_String := to_string;
     url_ParseQuery := λ _, ∅;
     Values_Encode := encode;
     removeEmptyPort := λ h, h;
     strconv_Quote := quote;
     Value := value;
     json_Marshal := marshal;
     json_Unmarshal := unmarshal;
     xml_Unmarshal := λ _ target, (target, Some "EOF");
     mp_FormDataContentType := "multipart/form-data; boundary=b";
     mp_WriteField := λ sofar k v, write sofar ("--b;" +:+ k +:+ "=" +:+ v +:+ ";");
     mp_CreateFormFile := λ sofar f n, write sofar ("--b;" +:+ f +:+ "@" +:+ n +:+ ";");
     mp_PartWrite := write;
     mp_Close := λ sofar, write sofar "--b--";
     client_send := send |}.

(** A world with a client at address 0 under the default policy, and
    another at address 1 with a policy of its own. *)
Definition world : World :=
  {| clients := {[ 0%nat := {| CheckRedirect := None |};
                   1%nat := {| CheckRedirect := Some (CallerPolicy 7) |} ]};
     trace := [] |}.

Definition builder : ReqBuilder := NewReqBuilder "" 0 0.

(** [GET(path)] on a builder of [method], with an after hook, sharing the
    client at address 0; [nofollow] says whether [NoFollow] was called. *)
Definition request_to (method path : string) (nofollow : bool) : ReqBuilder :=
  {| baseURL := ""; url := path; method := method; query := ∅;
     headers := ∅; noFollow := nofollow; body := None; client := 0;
     beforeRequest := None; afterRequest := Some 3%nat; context := None;
     onError := 0 |}.

(** A wrapper around an answer of the given status, content type and
    body to a GET of ["/"]. *)
Definition response (code : Z) (ctype body : string) : Response.t :=
  let req := {| req_ctx := Background; req_Method := "GET";
                req_URL := {| u_Scheme := ""; u_Host := ""; u_Path := "/";
                              u_RawQuery := ""; u_Fragment := "" |};
                req_Header := ∅; req_Body := BodyNil; req_ContentLength := 0;
                req_Host := "" |} in
  {| Response.raw := answer code ctype body req; Response.req := req;
     Response.onError := 0; Response.Body := body;
     Response.URL := req_URL req |}.

Fixpoint repeat_byte (n : nat) (c : ascii) : string :=
  match n with
  | O => EmptyString
  | S n' => String c (repeat_byte n' c)
  end.

(** The request [Do] builds for [request_to method path _]. *)
Definition request_for (method path : string) (body : ReqBody) : Request :=
  {| req_ctx := Background; req_Method := method;
     req_URL := {| u_Scheme := ""; u_Host := ""; u_Path := path;
                   u_RawQuery := ""; u_Fragment := "" |};
     req_Header := ∅; req_Body := body; req_ContentLength := 0;
     req_Host := "" |}.
End Sample.

(** ** Further parts of the package *)

(** The value the last pair with a key [k] gives it, where [f] is what the
    map does to a key on the way in (nothing for [url.Values], the canonical
    form for [http.Header]). *)
Definition last_value_for (f : string → string) (k : string)
    (ps : list (string * string)) : option string :=
  last (omap (λ kv, if decide (f kv.1 = k) then Some kv.2 else None) ps).

(** [base64.StdEncoding.EncodeToString]: three bytes give four digits of the
    standard alphabet, a short last group is padded with ['=']. *)
Definition base64_alphabet : list ascii :=
  list_ascii_of_string
    "ABCDEFGHIJKLMNOPQRSTUVWXYZabcdefghijklmnopqrstuvwxyz0123456789+/".

Definition base64_digit (n : nat) : ascii :=
  default "="%char (base64_alphabet !! n).

Fixpoint base64_groups (l : list nat) : list ascii :=
  match l with
  | [] => []
  | [a] =>
      [base64_digit (a / 4); base64_digit (a mod 4 * 16); "="%char; "="%char]
  | [a; b] =>
      [base64_digit (a / 4); base64_digit (a mod 4 * 16 + b / 16);
       base64_digit (b mod 16 * 4); "="%char]
  | a :: b :: c :: rest =>
      base64_digit (a / 4) :: base64_digit (a mod 4 * 16 + b / 16)
      :: base64_digit (b mod 16 * 4 + c / 64) :: base64_digit (c mod 64)
      :: base64_groups rest
  end.

Definition base64_EncodeToString (s : string) : string :=
  string_of_list_ascii (base64_groups (nat_of_ascii <$> list_ascii_of_string s)).

Section Credentials.
Context {P : Platform}.

Definition Basic (username password : string) : ReqBuilder → M ReqBuilder :=
  let auth := base64_EncodeToString (username +:+ ":" +:+ password) in
  Auth ("Basic " +:+ auth).
End Credentials.

(** [Do] of the earlier revision of the builder (request.go): the query of
    the URL is always parsed and encoded again, the request is made by
    [http.NewRequest], that is under the background context, and the before
    hook changes the request in place. That builder has no [context] field;
    the one here is not looked at. *)
Module RequestGo.
Section Do.
Context {P : Platform}.

Definition Do (b : ReqBuilder) : M (option Response.t) :=
  match url_Parse (baseURL b +:+ url b) with
  | inr err => emit (EvOnError (onError b) err) ;; mret None
  | inl u =>
      let q := add_all Values.Add (query b) (url_Query u) in
      let u := {| u_Scheme := u_Scheme u; u_Host := u_Host u;
                  u_Path := u_Path u; u_RawQuery := Values_Encode q;
                  u_Fragment := u_Fragment u |} in
      match NewRequestWithContext (Some Background) (method b) (url_String u)
              (body b) with
      | inr err => emit (EvOnError (onError b) err) ;; mret None
      | inl req =>
          let req := apply_headers b req in
          oldCheckRedirect ← get_CheckRedirect (client b);
          (if noFollow b
           then set_CheckRedirect (client b) (Some UseLastResponse)
           else mret tt) ;;
          req ← match beforeRequest b with
                | Some f => emit (EvBeforeRequest req) ;; mret (f req)
                | None => mret req
                end;
          r ← client_Do (client b) req;
          (match afterRequest b with
           | Some f =>
               emit (EvAfterRequest f req (result_response r) (result_error r))
           | None => mret tt
           end) ;;
          set_CheckRedirect (client b) oldCheckRedirect ;;
          match r with
          | DoErr _ err => emit (EvOnError (onError b) err) ;; mret None
          | DoOk res => NewResponse res req (onError b)
          end
      end
  end.
End Do.
End RequestGo.

(** Builders to run the further properties on. *)
Module Fixtures.
(** The builder of the package's test: one header, then [GET(path)]. *)
Definition tagged (path : string) : ReqBuilder :=
  {| baseURL := ""; url := path; method := "GET"; query := ∅;
     headers := {[ "X-Http-Tester" := ["true"] ]}; noFollow := false;
     body := None; client := 0; beforeRequest := None;
     afterRequest := None; context := None; onError := 0 |}.

(** The request [Do] builds for [tagged path]. *)
Definition tagged_request (path : string) : Request :=
  {| req_ctx := Background; req_Method := "GET";
     req_URL := {| u_Scheme := ""; u_Host := ""; u_Path := path;
                   u_RawQuery := ""; u_Fragment := "" |};
     req_Header := {[ "X-Http-Tester" := ["true"] ]}; req_Body := BodyNil;
     req_ContentLength := 0; req_Host := "" |}.
End Fixtures.

(** ** References for the statements on [File] and on the excerpt *)

Section Reference.
Context {P : Platform}.

(** The fields handed in turn to [WriteField], with nothing else in
    between: the bytes that got through and the error of the first field
    that failed, after which no field is tried. A reference for the
    statements on the goroutine of [File], written over the calls of the
    multipart writer alone. *)
Fixpoint fields_in_turn (extra : list (string * string)) (sofar : string)
  : string * option error :=
  match extra with
  | [] => (sofar, None)
  | (k, v) :: rest =>
      match mp_WriteField sofar k v with
      | (out, Some e) => (sofar +:+ out, Some e)
      | (out, None) => fields_in_turn rest (sofar +:+ out)
      end
  end.

(** The error of the first step of an upload that fails, the steps being,
    in this order: each field, the header of the file part, the write of
    the content to the part, the read of the content to its end. [None]
    when every step succeeds. *)
Definition first_failure (fieldName fileName : string) (reader : Stream)
    (extra : list (string * string)) : option error :=
  match fields_in_turn extra "" with
  | (_, Some e) => Some e
  | (sofar, None) =>
      match mp_CreateFormFile sofar fieldName fileName with
      | (_, Some e) => Some e
      | (header, None) =>
          match mp_PartWrite (sofar +:+ header) (s_data reader) with
          | (_, Some e) => Some e
          | (_, None) => s_fail reader
          end
      end
  end.
End Reference.

(** The characters of a text in UTF-8: every byte other than a continuation
    byte (binary 10xxxxxx, 128 to 191) begins one. On well-formed text this
    is [utf8.RuneCountInString]. *)
Definition utf8_continuation (c : ascii) : bool := byte_between 128 191 c.

Fixpoint utf8_RuneCount (s : string) : nat :=
  match s with
  | EmptyString => 0
  | String c s' => (if utf8_continuation c then 0 else 1) + utf8_RuneCount s'
  end.

(** A platform whose transport answers as soon as it has the head of the
    request, without reading the body to its end; the rest is the sample
    platform. *)
Module Hasty.
Definition send (cl : Client) (req : Request) : SendResult :=
  SendOk (Sample.answer 200 "text/plain" "ok" req).

Definition platform : Platform :=
  {| CanonicalMIMEHeaderKey := Sample.canonical true;
     url_Parse := Sample.parse;
     url_String := Sample.to_string;
     url_ParseQuery := λ _, ∅;
     Values_Encode := Sample.encode;
     removeEmptyPort := λ h, h;
     strconv_Quote := Sample.quote;
     Value := Sample.value;
     json_Marshal := Sample.marshal;
     json_Unmarshal := Sample.unmarshal;
     xml_Unmarshal := λ _ target, (target, Some "EOF");
     mp_FormDataContentType := "multipart/form-data; boundary=b";
     mp_WriteField :=
       λ sofar k v, Sample.write sofar ("--b;" +:+ k +:+ "=" +:+ v +:+ ";");
     mp_CreateFormFile :=
       λ sofar f n, Sample.write sofar ("--b;" +:+ f +:+ "@" +:+ n +:+ ";");
     mp_PartWrite := Sample.write;
     mp_Close := λ sofar, Sample.write sofar "--b--";
     client_send := send |}.
End Hasty.

(** Inputs for the two corrected statements. *)
Module Inputs.
(** A content stream that breaks after five bytes. *)
Definition broken_content : Stream :=
  {| s_data := "hello"; s_fail := Some "disk error" |}.

(** [POST("/up").File("f", "a.txt", broken_content, {k: v})] on the hasty
    platform. *)
Definition hasty_upload : ReqBuilder :=
  (File (P := Hasty.platform) "f" "a.txt" broken_content [("k", "v")]
     (Sample.request_to "POST" "/up" false) Sample.world).1.

(** The two bytes of a small e with an acute accent in UTF-8. *)
Definition e_acute : string :=
  String (ascii_of_nat 195) (String (ascii_of_nat 169) EmptyString).

(** 99 times x, then that letter: 100 characters in 101 bytes. *)
Definition hundred_characters : string := Sample.repeat_byte 99 "x" +:+ e_acute.
End Inputs.

(** * Properties *)

(** ** The loop over argument pairs *)

Lemma for_pairs_shift {St} (body : string → string → St → St) k v rest idx s :
  foldl (λ s i,
           match (k :: v :: rest) !! (i * 2)%nat,
                 (k :: v :: rest) !! (i * 2 + 1)%nat with
           | Some key, Some value => body key value s
           | _, _ => s
           end) s (S <$> idx)
  = foldl (λ s i,
           match rest !! (i * 2)%nat, rest !! (i * 2 + 1)%nat with
           | Some key, Some value => body key value s
           | _, _ => s
           end) s idx.
Proof.
  revert s. induction idx as [|i idx IH]; intros s; [reflexivity|].
  cbn [fmap list_fmap foldl].
  replace (S i * 2)%nat with (S (S (i * 2))) by lia.
  replace (S (S (i * 2)) + 1)%nat with (S (S (i * 2 + 1))) by lia.
  cbn [lookup list_lookup]. apply IH.
Qed.

Lemma for_pairs_cons2 {St} (body : string → string → St → St) k v rest s :
  for_pairs body (k :: v :: rest) s = for_pairs body rest (body k v s).
Proof.
  unfold for_pairs.
  replace (length (k :: v :: rest) / 2)%nat with (S (length rest / 2)).
  2:{ cbn [length]. change (S (S (length rest))) with (1 * 2 + length rest)%nat.
      rewrite Nat.div_add_l by lia. lia. }
  rewrite <- cons_seq, <- fmap_S_seq. cbn [foldl].
  rewrite for_pairs_shift. reflexivity.
Qed.

(** The index loop runs its body on the pairs of the list, in order. *)
Lemma for_pairs_pairs {St} (body : string → string → St → St) args s :
  for_pairs body args s = foldl (λ s kv, body kv.1 kv.2 s) s (pairs args).
Proof.
  revert s. induction args as [args IH] using (induction_ltof1 _ (@length _)).
  unfold ltof in IH. intros s.
  destruct args as [|k [|v rest]]; [done..|].
  rewrite for_pairs_cons2. cbn [pairs foldl]. apply IH. cbn. lia.
Qed.

(** A key left without a value at the end of an even list adds no pair. *)
Lemma pairs_trailing_key args key :
  Nat.Even (length args) → pairs (args ++ [key]) = pairs args.
Proof.
  induction args as [args IH] using (induction_ltof1 _ (@length _)).
  unfold ltof in IH. intros Hev.
  destruct args as [|k [|v rest]]; [done| |].
  - destruct Hev as [n Hn]. cbn in Hn. lia.
  - cbn [app pairs]. f_equal. apply IH; [cbn; lia|].
    destruct Hev as [n Hn]. cbn [length] in Hn. exists (n - 1)%nat. lia.
Qed.

Lemma pairs_length args : length (pairs args) = (length args / 2)%nat.
Proof.
  induction args as [args IH] using (induction_ltof1 _ (@length _)).
  unfold ltof in IH. destruct args as [|k [|v rest]]; [done..|].
  cbn [pairs length]. rewrite IH by (cbn; lia).
  change (S (S (length rest))) with (1 * 2 + length rest)%nat.
  rewrite Nat.div_add_l by lia. lia.
Qed.

(** ** Query accumulation *)

Lemma Q_loop_lookup ps keys q key :
  (foldl (λ s kv, Q_body kv.1 kv.2 s) (keys, q) ps).2 !! key =
  match values_for key ps with
  | [] => q !! key
  | vs => Some (match keys !! key with
                | Some _ => default [] (q !! key)
                | None => []
                end ++ vs)
  end.
Proof.
  revert keys q. induction ps as [|[k v] ps IH]; intros keys q; [done|].
  cbn [foldl Q_body fst snd]. rewrite IH. unfold values_for. cbn [omap list_omap fst snd].
  destruct (decide (k = key)) as [->|Hne].
  - rewrite lookup_insert_eq.
    assert (Hq : (match keys !! key with
                  | Some _ => Values.Add key v q
                  | None => Values.Set_ key v q
                  end) !! key
                 = Some (match keys !! key with
                         | Some _ => default [] (q !! key)
                         | None => []
                         end ++ [v])).
    { destruct (keys !! key); unfold Values.Add, Values.Set_;
        by rewrite lookup_insert_eq. }
    rewrite Hq. cbn [default].
    destruct (omap _ ps); [done|]. unfold id. by rewrite <- app_assoc.
  - rewrite lookup_insert_ne by done.
    assert (Hq : (match keys !! k with
                  | Some _ => Values.Add k v q
                  | None => Values.Set_ k v q
                  end) !! key = q !! key).
    { destruct (keys !! k); unfold Values.Add, Values.Set_;
        by rewrite lookup_insert_ne. }
    by rewrite Hq.
Qed.

Section Builder.
Context {P : Platform}.

(** C1. A call of [Q] leaves a key it does not mention as it was, and
    gives a key it mentions exactly the values the call pairs with it, in
    order: the first occurrence replaces what the builder held, the later
    ones of the same call append. Keys are tracked per call, so
    [Q("a","1","a","2")] gives a=[1,2] and a following [Q("a","3")] gives
    a=[3]. *)
Theorem Q_replaces_then_appends (args : list string) (b : ReqBuilder)
    (w : World) (key : string) :
  query (Q args b w).1 !! key =
    match values_for key (pairs args) with
    | [] => query b !! key
    | vs => Some vs
    end
  ∧ query (Q ["a"; "1"; "a"; "2"] b w).1 !! "a" = Some ["1"; "2"]
  ∧ query ((b1 ← Q ["a"; "1"; "a"; "2"] b; Q ["a"; "3"] b1) w).1 !! "a"
    = Some ["3"].
Proof.
  assert (Hgen : ∀ args b w key,
    query (Q args b w).1 !! key =
      match values_for key (pairs args) with
      | [] => query b !! key
      | vs => Some vs
      end).
  { intros args' b' w' key'. unfold Q, mret, M_ret. cbn [fst with_query query].
    rewrite for_pairs_pairs, Q_loop_lookup, lookup_empty.
    by destruct (values_for key' (pairs args')). }
  split; [apply Hgen|]. split; [by rewrite Hgen|].
  unfold mbind, M_bind.
  destruct (Q ["a"; "1"; "a"; "2"] b w) as [b1 w1].
  by rewrite Hgen.
Qed.
End Builder.

(** ** Accumulating arguments, and the JSON body *)

Section Accumulation.
Context {P : Platform}.

Lemma Header_single key value b w :
  Header [key; value] b w = (with_headers (Header_Set key value (headers b)) b, w).
Proof. reflexivity. Qed.

Lemma Form_unfold args b w :
  Form args b w =
    (with_headers_body
       (Header_Set "Content-Type" "application/x-www-form-urlencoded" (headers b))
       (Some (StringsReader (Values_Encode (for_pairs Values.Set_ args ∅)))) b,
     w).
Proof. reflexivity. Qed.

Lemma JSON_unfold j b w :
  JSON j b w =
    (with_headers_body
       (Header_Set "Content-Type" "application/json" (headers b))
       (Some (BytesReader (Marshal j).1)) b,
     {| clients := clients w;
        trace := trace w ++ match (Marshal j).2 with
                            | Some err => [EvOnError (onError b) err]
                            | None => []
                            end |}).
Proof.
  unfold JSON, mbind, M_bind. rewrite Header_single.
  destruct (Marshal j) as [jsonBytes [err|]]; cbn.
  - reflexivity.
  - destruct w. by rewrite app_nil_r.
Qed.

(** C9. An argument list of odd length is an even one followed by a key
    with no value. [Q], [Header] and [Form] run their loop on the pairs of
    the even part only, half the length rounded down of them; the key at
    the end changes nothing, the world (and so every error sink) is left
    as it was, and the builder comes back. *)
Theorem trailing_key_is_ignored (args : list string) (key : string)
    (b : ReqBuilder) (w : World) :
  Nat.Even (length args) →
  Q (args ++ [key]) b w
    = (with_query (foldl (λ s kv, Q_body kv.1 kv.2 s) (∅, query b) (pairs args)).2 b, w)
  ∧ Header (args ++ [key]) b w
    = (with_headers (foldl (λ h kv, Header_Set kv.1 kv.2 h) (headers b) (pairs args)) b, w)
  ∧ Form (args ++ [key]) b w
    = (with_headers_body
         (Header_Set "Content-Type" "application/x-www-form-urlencoded" (headers b))
         (Some (StringsReader
                  (Values_Encode (foldl (λ q kv, Values.Set_ kv.1 kv.2 q) ∅ (pairs args)))))
         b, w)
  ∧ Q (args ++ [key]) b w = Q args b w
  ∧ Header (args ++ [key]) b w = Header args b w
  ∧ Form (args ++ [key]) b w = Form args b w
  ∧ length (pairs args) = (length (args ++ [key]) / 2)%nat.
Proof.
  intros Hev.
  assert (Hfp : ∀ St (body : string → string → St → St) s,
             for_pairs body (args ++ [key]) s
             = foldl (λ s kv, body kv.1 kv.2 s) s (pairs args)).
  { intros. by rewrite for_pairs_pairs, pairs_trailing_key. }
  assert (Hsame : ∀ St (body : string → string → St → St) s,
             for_pairs body (args ++ [key]) s = for_pairs body args s).
  { intros. by rewrite Hfp, for_pairs_pairs. }
  repeat split.
  - unfold Q, mret, M_ret. by rewrite Hfp.
  - unfold Header, mret, M_ret. by rewrite Hfp.
  - by rewrite Form_unfold, Hfp.
  - unfold Q. by rewrite Hsame.
  - unfold Header. by rewrite Hsame.
  - by rewrite !Form_unfold, Hsame.
  - by rewrite <- pairs_trailing_key with (key := key), pairs_length.
Qed.

(** C10. [JSON] sets the Content-Type header of the builder to
    application/json whatever the outcome of the serialisation: the
    headers it leaves are those of the [Header] call it starts with, the
    entry holds this one value, replacing any earlier one. *)
Theorem JSON_sets_Content_Type (j : Value) (b : ReqBuilder) (w : World) :
  headers (JSON j b w).1
    = headers (Header ["Content-Type"; "application/json"] b w).1
  ∧ headers (JSON j b w).1 !! CanonicalMIMEHeaderKey "Content-Type"
    = Some ["application/json"]
  ∧ Header_Get "Content-Type" (headers (JSON j b w).1) = "application/json".
Proof.
  rewrite JSON_unfold, Header_single. cbn [fst headers with_headers_body with_headers].
  unfold Header_Get, Header_Set, Values.Get, Values.Set_.
  by rewrite lookup_insert_eq.
Qed.

(** C2, as the code has it. When [json.Marshal] fails, [JSON] reports the
    error once to the sink of the builder and sets the body to a reader
    over no bytes (it does not leave the body as it was); a request built
    from that body is the one built from no body at all, except that its
    body is [http.NoBody], so the failure does not stop [Do]. When
    [json.Marshal] succeeds the body reads the bytes it made and nothing
    is reported. Either way the builder comes back, changed in its headers
    and body only, and the clients are untouched. *)
Theorem JSON_sets_body_either_way (j : Value) (b : ReqBuilder) (w : World) :
  (JSON j b w).1
    = with_headers_body (headers (JSON j b w).1) (body (JSON j b w).1) b
  ∧ clients (JSON j b w).2 = clients w
  ∧ match json_Marshal j with
    | inl jsonBytes =>
        body (JSON j b w).1 = Some (BytesReader jsonBytes)
        ∧ trace (JSON j b w).2 = trace w
    | inr err =>
        body (JSON j b w).1 = Some (BytesReader "")
        ∧ trace (JSON j b w).2 = trace w ++ [EvOnError (onError b) err]
        ∧ ∀ ctx method url,
            NewRequestWithContext ctx method url (body (JSON j b w).1)
            = match NewRequestWithContext ctx method url None with
              | inl req => inl (with_NoBody req)
              | inr e => inr e
              end
    end.
Proof.
  rewrite JSON_unfold. cbn [fst snd body headers with_headers_body clients trace].
  split; [done|]. split; [done|].
  unfold Marshal. destruct (json_Marshal j) as [jsonBytes|err]; cbn [fst snd].
  - split; [done|]. by rewrite app_nil_r.
  - split; [done|]. split; [done|].
    intros ctx method url. unfold NewRequestWithContext.
    destruct (negb (validMethod _)); [done|].
    destruct ctx as [ctx|]; [|done].
    by destruct (url_Parse url).
Qed.
End Accumulation.

(** An odd argument list on the sample platform. *)
Lemma trailing_key_is_ignored_witness :
  Nat.Even (length ["a"; "1"])
  ∧ Q (["a"; "1"] ++ ["b"]) Sample.builder Sample.world
    = Q ["a"; "1"] Sample.builder Sample.world.
Proof.
  assert (Hev : Nat.Even (length ["a"; "1"])) by (exists 1%nat; reflexivity).
  split; [exact Hev|].
  apply (trailing_key_is_ignored (P := Sample.platform)
           ["a"; "1"] "b" Sample.builder Sample.world Hev).
Defined.

(** C2 as the specification words it fails: after a failed serialisation on
    a fresh builder, whose body is unset, the body is set. *)
Lemma JSON_failure_sets_the_body :
  json_Marshal (Platform := Sample.platform) Sample.VChan
    = inr "json: unsupported type: chan int"
  ∧ body Sample.builder = None
  ∧ body (JSON (P := Sample.platform) Sample.VChan Sample.builder Sample.world).1
    ≠ None.
Proof. split; [reflexivity|]. split; [reflexivity|]. discriminate. Qed.

(** ** Execution *)

Section Execution.
Context {P : Platform}.

Lemma NewResponse_run res req sink w :
  NewResponse res req sink w =
    (wrapped sink res req,
     {| clients := clients w; trace := trace w ++ response_events sink res |}).
Proof.
  unfold NewResponse, wrapped, response_events, ReadAll.
  destruct (s_fail (res_Body res)); unfold mbind, M_bind, emit, mret, M_ret;
    cbn [clients trace]; by rewrite <- ?app_assoc.
Qed.

(** [Do] spelled out: what it returns and the world it leaves. *)
Lemma Do_run b w :
  Do b w =
    match built_request b with
    | inr err =>
        (None, {| clients := clients w;
                  trace := trace w ++ [EvOnError (onError b) err] |})
    | inl req =>
        let req' := hooked b req in
        let r := dispatch_result b w req' in
        let events :=
          before_events b req
          ++ [EvDispatch (client b) (CheckRedirect (client_at_dispatch b w)) req']
          ++ after_events b req' r in
        match r with
        | DoErr _ err =>
            (None, {| clients := restored_clients b w;
                      trace := trace w ++ events ++ [EvOnError (onError b) err] |})
        | DoOk res =>
            (wrapped (onError b) res req',
             {| clients := restored_clients b w;
                trace := trace w ++ events ++ response_events (onError b) res |})
        end
    end.
Proof.
  unfold Do, built_request.
  destruct (url_Parse _) as [u|err]; [|reflexivity].
  destruct (NewRequestWithContext _ _ _ _) as [req0|err]; [|reflexivity].
  generalize (apply_headers b req0) as req. clear req0. intros req.
  unfold hooked, before_events, after_events, dispatch_result,
    client_at_dispatch, restored_clients.
  unfold mbind, M_bind, mret, M_ret, get_CheckRedirect, set_CheckRedirect,
    client_Do, emit.
  cbv zeta.
  destruct (noFollow b), (beforeRequest b) as [f|], (afterRequest b) as [g|];
    cbn [clients trace fst snd];
    rewrite ?lookup_total_insert_eq, ?insert_insert_eq;
    cbn [CheckRedirect];
    match goal with
    | |- context [client_send ?c ?r] => destruct (client_send c r)
    end;
    cbn [result_response result_error app];
    rewrite ?NewResponse_run; cbn [clients trace];
    rewrite <- ?app_assoc; cbn [app]; try reflexivity.
Qed.
End Execution.

(** ** The redirect policy and failed dispatches *)

Lemma dispatched_under_app c tr1 tr2 :
  dispatched_under c (tr1 ++ tr2) = dispatched_under c tr1 ++ dispatched_under c tr2.
Proof. apply omap_app. Qed.

Lemma all_reported_app tr1 tr2 :
  all_reported (tr1 ++ tr2) = all_reported tr1 ++ all_reported tr2.
Proof. apply omap_app. Qed.

Lemma restored_client (m : gmap nat Client) c c' :
  <[c := {| CheckRedirect := CheckRedirect (m !!! c) |}]> m !!! c' = m !!! c'.
Proof.
  destruct (decide (c = c')) as [->|Hne].
  - rewrite lookup_total_insert_eq. by destruct (m !!! c').
  - by rewrite lookup_total_insert_ne.
Qed.

Section Dispatch.
Context {P : Platform}.

Lemma Do_clients b w c : clients (Do b w).2 !!! c = clients w !!! c.
Proof.
  rewrite Do_run. destruct (built_request b) as [req|err]; [|done].
  cbv zeta. destruct (dispatch_result _ _ _); cbn [snd clients];
    apply restored_client.
Qed.

Lemma Do_dispatched_under b w req :
  built_request b = inl req →
  dispatched_under (client b) (trace (Do b w).2)
  = dispatched_under (client b) (trace w)
    ++ [CheckRedirect (client_at_dispatch b w)].
Proof.
  intros Hreq. rewrite Do_run, Hreq. cbv zeta.
  unfold before_events, after_events, response_events.
  destruct (dispatch_result _ _ _) as [res|res err]; cbn [snd trace];
    rewrite !dispatched_under_app;
    destruct (beforeRequest b), (afterRequest b); cbn;
    try destruct (s_fail (res_Body res)); cbn;
    by rewrite decide_True.
Qed.

(** C3. A [Do] that reaches the dispatch on a builder with [NoFollow]
    dispatches under the stop-at-the-last-response policy, and whatever
    the transport answers (a response or a failure) every client holds
    afterwards the policy it held before. A later [Do] without [NoFollow]
    on the same client therefore dispatches under that earlier policy. *)
Theorem Do_restores_CheckRedirect (b : ReqBuilder) (w : World) (req : Request) :
  built_request b = inl req →
  noFollow b = true →
  dispatched_under (client b) (trace (Do b w).2)
    = dispatched_under (client b) (trace w) ++ [Some UseLastResponse]
  ∧ (∀ c, clients (Do b w).2 !!! c = clients w !!! c)
  ∧ ∀ b2 req2,
      client b2 = client b → noFollow b2 = false →
      built_request b2 = inl req2 →
      dispatched_under (client b) (trace (Do b2 (Do b w).2).2)
      = dispatched_under (client b) (trace (Do b w).2)
        ++ [CheckRedirect (clients w !!! client b)].
Proof.
  intros Hreq Hno. split; [|split].
  - rewrite (Do_dispatched_under _ _ _ Hreq).
    unfold client_at_dispatch. by rewrite Hno.
  - apply Do_clients.
  - intros b2 req2 Hc Hno2 Hreq2. rewrite <- Hc.
    rewrite (Do_dispatched_under _ _ _ Hreq2).
    unfold client_at_dispatch. by rewrite Hno2, Hc, Do_clients.
Qed.

(** The course of a [Do] whose dispatch fails. *)
Lemma Do_run_failure b w req res at_url cause :
  built_request b = inl req →
  client_send (client_at_dispatch b w) (hooked b req) = SendErr res at_url cause →
  let req' := hooked b req in
  let err := urlErrorOp (req_Method req') +:+ " " +:+ strconv_Quote at_url
             +:+ ": " +:+ cause in
  (Do b w).1 = None
  ∧ trace (Do b w).2
    = trace w ++ before_events b req
      ++ [EvDispatch (client b) (CheckRedirect (client_at_dispatch b w)) req']
      ++ match afterRequest b with
         | Some f => [EvAfterRequest f req' res (Some err)]
         | None => []
         end
      ++ [EvOnError (onError b) err]
  ∧ all_reported (trace (Do b w).2) = all_reported (trace w) ++ [(onError b, err)].
Proof.
  intros Hreq Hsend req' err.
  rewrite Do_run, Hreq. cbv zeta. unfold dispatch_result. rewrite Hsend.
  cbn [fst snd trace]. unfold after_events, before_events, url_Error_message.
  cbn [Op ue_URL Err result_response result_error]. fold req' err.
  split; [done|]. split.
  - by rewrite <- !app_assoc.
  - rewrite !all_reported_app.
    destruct (beforeRequest b), (afterRequest b); reflexivity.
Qed.

(** C8. When the dispatch of [Do] fails, the after hook, if there is one,
    is called with the request and the error; the error goes once to the
    sink, and it is the [url.Error] of the client: the method of the
    request (as [urlErrorOp] writes it), the URL and the cause; [Do]
    returns nil. *)
Theorem Do_transport_failure (b : ReqBuilder) (w : World) (req : Request)
    (res : option HTTPResponse) (at_url : string) (cause : error) :
  built_request b = inl req →
  client_send (client_at_dispatch b w) (hooked b req) = SendErr res at_url cause →
  let req' := hooked b req in
  let err := urlErrorOp (req_Method req') +:+ " " +:+ strconv_Quote at_url
             +:+ ": " +:+ cause in
  (Do b w).1 = None
  ∧ trace (Do b w).2
    = trace w ++ before_events b req
      ++ [EvDispatch (client b) (CheckRedirect (client_at_dispatch b w)) req']
      ++ match afterRequest b with
         | Some f => [EvAfterRequest f req' res (Some err)]
         | None => []
         end
      ++ [EvOnError (onError b) err]
  ∧ all_reported (trace (Do b w).2) = all_reported (trace w) ++ [(onError b, err)].
Proof. exact (Do_run_failure b w req res at_url cause). Qed.
End Dispatch.

(** [GET("/redirect")] with [NoFollow], then without, on the sample server. *)
Lemma Do_restores_CheckRedirect_witness :
  built_request (P := Sample.platform) (Sample.request_to "GET" "/redirect" true)
    = inl (Sample.request_for "GET" "/redirect" BodyNil)
  ∧ noFollow (Sample.request_to "GET" "/redirect" true) = true
  ∧ dispatched_under 0
      (trace (Do (P := Sample.platform) (Sample.request_to "GET" "/redirect" false)
                (Do (P := Sample.platform) (Sample.request_to "GET" "/redirect" true)
                   Sample.world).2).2)
    = [Some UseLastResponse; None].
Proof.
  assert (Hreq : built_request (P := Sample.platform)
                   (Sample.request_to "GET" "/redirect" true)
                 = inl (Sample.request_for "GET" "/redirect" BodyNil))
    by (vm_compute; reflexivity).
  assert (Hno : noFollow (Sample.request_to "GET" "/redirect" true) = true)
    by reflexivity.
  split; [exact Hreq|]. split; [exact Hno|].
  destruct (Do_restores_CheckRedirect (P := Sample.platform)
              (Sample.request_to "GET" "/redirect" true) Sample.world _ Hreq Hno)
    as (Hfirst & _ & Hnext).
  refine (eq_trans (Hnext (Sample.request_to "GET" "/redirect" false)
                      (Sample.request_for "GET" "/redirect" BodyNil)
                      eq_refl eq_refl _) _); [vm_compute; reflexivity|].
  refine (eq_trans (f_equal (λ l, l ++ _) Hfirst) _). reflexivity.
Defined.

(** [GET("/down")] on the sample server, which is unreachable. *)
Lemma Do_transport_failure_witness :
  built_request (P := Sample.platform) (Sample.request_to "GET" "/down" false)
    = inl (Sample.request_for "GET" "/down" BodyNil)
  ∧ client_send (Platform := Sample.platform)
      (client_at_dispatch (Sample.request_to "GET" "/down" false) Sample.world)
      (hooked (Sample.request_to "GET" "/down" false)
         (Sample.request_for "GET" "/down" BodyNil))
    = SendErr None "/down" "dial tcp: connection refused"
  ∧ (Do (P := Sample.platform) (Sample.request_to "GET" "/down" false) Sample.world).1
    = None
  ∧ all_reported
      (trace (Do (P := Sample.platform) (Sample.request_to "GET" "/down" false)
                Sample.world).2)
    = [(0%nat, "Get " +:+ Sample.quote "/down" +:+ ": dial tcp: connection refused")].
Proof.
  assert (Hreq : built_request (P := Sample.platform)
                   (Sample.request_to "GET" "/down" false)
                 = inl (Sample.request_for "GET" "/down" BodyNil))
    by (vm_compute; reflexivity).
  assert (Hsend : client_send (Platform := Sample.platform)
                    (client_at_dispatch (Sample.request_to "GET" "/down" false)
                       Sample.world)
                    (hooked (Sample.request_to "GET" "/down" false)
                       (Sample.request_for "GET" "/down" BodyNil))
                  = SendErr None "/down" "dial tcp: connection refused")
    by (vm_compute; reflexivity).
  split; [exact Hreq|]. split; [exact Hsend|].
  destruct (Do_transport_failure (P := Sample.platform)
              (Sample.request_to "GET" "/down" false) Sample.world _
              None "/down" "dial tcp: connection refused" Hreq Hsend)
    as (Hnil & _ & Hrep).
  split; [exact Hnil|]. exact Hrep.
Defined.

(** The operation named in the error of the client: a method in printable
    ASCII keeps its first byte and has the rest in lower case, any other
    method (here one a before hook could have set) is left as it is. *)
Example urlErrorOp_cases :
  urlErrorOp "" = "Get"
  ∧ urlErrorOp "GET" = "Get"
  ∧ urlErrorOp "DELETE" = "Delete"
  ∧ urlErrorOp "gET" = "get"
  ∧ urlErrorOp (String (ascii_of_nat 1) "ET") = String (ascii_of_nat 1) "ET"
  ∧ urlErrorOp ("G" +:+ String (ascii_of_nat 200) "T")
    = "G" +:+ String (ascii_of_nat 200) "T".
Proof. repeat split; vm_compute; reflexivity. Qed.

(** A before hook that rewrites the method: the error names the method as
    the hook left it. *)
Example Do_failure_after_method_hook :
  let odd := String (ascii_of_nat 1) "ET" in
  let hook (req : Request) :=
    {| req_ctx := req_ctx req; req_Method := odd; req_URL := req_URL req;
       req_Header := req_Header req; req_Body := req_Body req;
       req_ContentLength := req_ContentLength req; req_Host := req_Host req |} in
  let b := {| baseURL := ""; url := "/down"; method := "GET"; query := ∅;
              headers := ∅; noFollow := false; body := None; client := 0;
              beforeRequest := Some hook; afterRequest := None;
              context := None; onError := 0 |} in
  all_reported (trace (Do (P := Sample.platform) b Sample.world).2)
  = [(0%nat, odd +:+ " " +:+ Sample.quote "/down"
             +:+ ": dial tcp: connection refused")].
Proof. vm_compute. reflexivity. Qed.

(** ** The multipart producer *)

Lemma pipe_Write_wrerr out p : wrerr (pipe_Write out p) = wrerr p.
Proof. unfold pipe_Write. by destruct (wrerr p) eqn:E. Qed.

Lemma pipe_CloseWithError_open e p :
  wrerr p = None → wrerr (pipe_CloseWithError (Some e) p) = Some (pipe_failure e).
Proof. intros Hopen. unfold pipe_CloseWithError. by rewrite Hopen. Qed.

Lemma pipe_Write_open0 out p :
  wrerr p = None → pipe_Write out p = {| written := written p +:+ out; wrerr := None |}.
Proof. intros Hopen. unfold pipe_Write. by rewrite Hopen. Qed.

Lemma pipe_Close_open p : wrerr p = None → wrerr (pipe_Close p) = Some io_EOF.
Proof. intros Hopen. unfold pipe_Close, pipe_CloseWithError. by rewrite Hopen. Qed.

Section Producer.
Context {P : Platform}.

Lemma write_fields_wrerr extra p : wrerr (write_fields extra p).1 = wrerr p.
Proof.
  revert p. induction extra as [|[k v] extra IH]; intros p; [done|].
  cbn [write_fields]. destruct (mp_WriteField _ k v) as [out [e|]].
  - apply pipe_Write_wrerr.
  - rewrite IH. apply pipe_Write_wrerr.
Qed.

Lemma io_Copy_wrerr reader p : wrerr (io_Copy reader p).1 = wrerr p.
Proof.
  unfold io_Copy. destruct (mp_PartWrite _ _) as [out werr].
  apply pipe_Write_wrerr.
Qed.

Lemma writer_Close_wrerr p : wrerr (writer_Close p) = wrerr p.
Proof. apply pipe_Write_wrerr. Qed.

(** What the goroutine leaves in [wrerr], by the first step that fails. *)
Lemma producer_wrerr fieldName fileName reader extra :
  wrerr (producer fieldName fileName reader extra) =
    let p0 := {| written := ""; wrerr := None |} in
    match write_fields extra p0 with
    | (_, Some e) => Some (pipe_failure e)
    | (p1, None) =>
        match mp_CreateFormFile (written p1) fieldName fileName with
        | (_, Some e) => Some (pipe_failure e)
        | (out, None) =>
            match io_Copy reader (pipe_Write out p1) with
            | (_, Some e) => Some (pipe_failure e)
            | (_, None) => Some io_EOF
            end
        end
    end.
Proof.
  unfold producer. cbv zeta.
  pose proof (write_fields_wrerr extra {| written := ""; wrerr := None |}) as H1.
  destruct (write_fields extra _) as [p1 [e|]]; cbn [fst wrerr] in H1.
  { cbn [close_if_nil]. by apply pipe_CloseWithError_open. }
  destruct (mp_CreateFormFile _ _ _) as [out [e|]].
  { cbn [close_if_nil]. apply pipe_CloseWithError_open.
    by rewrite pipe_Write_wrerr. }
  pose proof (io_Copy_wrerr reader (pipe_Write out p1)) as H2.
  rewrite pipe_Write_wrerr in H2.
  destruct (io_Copy reader _) as [p3 [e|]]; cbn [fst] in H2; cbn [close_if_nil].
  - rewrite writer_Close_wrerr. apply pipe_CloseWithError_open. congruence.
  - apply pipe_Close_open. rewrite writer_Close_wrerr. congruence.
Qed.

Lemma built_request_body b req r :
  body b = Some r →
  (∀ s, r ≠ BytesReader s) → (∀ s, r ≠ StringsReader s) →
  built_request b = inl req → req_Body req = BodyOf r.
Proof.
  intros Hbody Hb Hs. unfold built_request, NewRequestWithContext.
  destruct (url_Parse (_ +:+ _)); [|done].
  destruct (negb (validMethod _)); [done|].
  destruct (url_Parse _); [|done]. rewrite Hbody.
  destruct r; try (by intros [= <-]).
  - by destruct (Hb b0).
  - by destruct (Hs s).
Qed.

(** The goroutine's field loop is [fields_in_turn] on an open pipe. *)
Lemma write_fields_in_turn extra p :
  wrerr p = None →
  write_fields extra p
  = ({| written := (fields_in_turn extra (written p)).1; wrerr := None |},
     (fields_in_turn extra (written p)).2).
Proof.
  revert p. induction extra as [|[k v] extra IH]; intros p Hopen.
  - cbn. by destruct p as [wr we]; cbn in *; subst.
  - cbn [write_fields fields_in_turn].
    destruct (mp_WriteField (written p) k v) as [out [e|]].
    + by rewrite pipe_Write_open0.
    + rewrite IH by (by rewrite pipe_Write_wrerr).
      by rewrite pipe_Write_open0.
Qed.

Lemma fields_in_turn_app pre rest sofar sofar' :
  fields_in_turn pre sofar = (sofar', None) →
  fields_in_turn (pre ++ rest) sofar = fields_in_turn rest sofar'.
Proof.
  revert sofar. induction pre as [|[k v] pre IH]; intros sofar.
  - by intros [= <-].
  - cbn [app fields_in_turn].
    destruct (mp_WriteField sofar k v) as [out [e|]]; [done|]. apply IH.
Qed.

(** How the goroutine leaves the pipe, by the calls of the writer alone. *)
Lemma producer_first_failure fieldName fileName reader extra :
  wrerr (producer fieldName fileName reader extra)
  = Some (match first_failure fieldName fileName reader extra with
          | Some e => pipe_failure e
          | None => io_EOF
          end).
Proof.
  rewrite producer_wrerr. cbv zeta. unfold first_failure.
  rewrite write_fields_in_turn by done. cbn [written].
  destruct (fields_in_turn extra "") as [sofar [e|]]; [done|].
  cbn [fst snd written].
  destruct (mp_CreateFormFile sofar fieldName fileName) as [header [e|]]; [done|].
  unfold io_Copy. rewrite pipe_Write_open0 by done. cbn [written].
  destruct (mp_PartWrite (sofar +:+ header) (s_data reader)) as [copied [e|]];
    [done|].
  by destruct (s_fail reader).
Qed.

(** C4, as the code has it. The goroutine of [File] closes the write end
    of the pipe with the error of the first step that fails (a field that
    [WriteField] rejects, the header of the file part, the write of the
    content, the read of the content), and with [io.EOF] exactly when none
    does; a reader of the body then meets that error, not a clean end of
    file. A read error of the content stream in the middle of the copy is
    such a failure. When the transport fails the exchange on a request body
    that ends in an error, [Do] returns nil and the sink gets that error as
    the cause of the transport error. *)
Theorem File_producer_closes (fieldName fileName : string) (reader : Stream)
    (extra : list (string * string)) :
  let p := producer fieldName fileName reader extra in
  wrerr p = Some (match first_failure fieldName fileName reader extra with
                  | Some e => pipe_failure e
                  | None => io_EOF
                  end)
  ∧ body_end (PipeReader p) = Some (first_failure fieldName fileName reader extra)
  ∧ (wrerr p = Some io_EOF ↔
     ∃ sofar header copied,
       fields_in_turn extra "" = (sofar, None)
       ∧ mp_CreateFormFile sofar fieldName fileName = (header, None)
       ∧ mp_PartWrite (sofar +:+ header) (s_data reader) = (copied, None)
       ∧ s_fail reader = None)
  ∧ (∀ e pre k v post sofar out,
       extra = pre ++ (k, v) :: post →
       fields_in_turn pre "" = (sofar, None) →
       mp_WriteField sofar k v = (out, Some e) →
       wrerr p = Some (pipe_failure e))
  ∧ (∀ e sofar header,
       fields_in_turn extra "" = (sofar, None) →
       mp_CreateFormFile sofar fieldName fileName = (header, Some e) →
       wrerr p = Some (pipe_failure e))
  ∧ (∀ e sofar header copied,
       fields_in_turn extra "" = (sofar, None) →
       mp_CreateFormFile sofar fieldName fileName = (header, None) →
       mp_PartWrite (sofar +:+ header) (s_data reader) = (copied, Some e) →
       wrerr p = Some (pipe_failure e))
  ∧ (∀ e sofar header copied,
       fields_in_turn extra "" = (sofar, None) →
       mp_CreateFormFile sofar fieldName fileName = (header, None) →
       mp_PartWrite (sofar +:+ header) (s_data reader) = (copied, None) →
       s_fail reader = Some e →
       wrerr p = Some (pipe_failure e)
       ∧ body_end (PipeReader p) = Some (Some e))
  ∧ (∀ e b w req,
       wrerr p = Some (pipe_failure e) →
       let bF := (File fieldName fileName reader extra b w).1 in
       (File fieldName fileName reader extra b w).2 = w
       ∧ body bF = Some (PipeReader p)
       ∧ body_end (PipeReader p) = Some (Some e)
       ∧ (built_request bF = inl req →
          body_failure (req_Body req) = Some e
          ∧ ∀ w',
              req_Body (hooked bF req) = req_Body req →
              (∀ cl rq e', body_failure (req_Body rq) = Some e' →
                           ∃ res at_url, client_send cl rq = SendErr res at_url e') →
              (Do bF w').1 = None
              ∧ ∃ at_url,
                  all_reported (trace (Do bF w').2)
                  = all_reported (trace w')
                    ++ [(onError b,
                         urlErrorOp (req_Method (hooked bF req)) +:+ " "
                         +:+ strconv_Quote at_url +:+ ": " +:+ e)])).
Proof.
  intros p.
  assert (Hp : wrerr p = Some (match first_failure fieldName fileName reader extra with
                               | Some e => pipe_failure e
                               | None => io_EOF
                               end)) by apply producer_first_failure.
  assert (Hend : body_end (PipeReader p)
                 = Some (first_failure fieldName fileName reader extra)).
  { cbn [body_end]. rewrite Hp. by destruct (first_failure _ _ _ _). }
  split; [exact Hp|]. split; [exact Hend|].
  split; [|split; [|split; [|split; [|split]]]].
  - rewrite Hp. unfold first_failure.
    destruct (fields_in_turn extra "") as [sofar [e|]].
    { split; [done|]. by intros (? & ? & ? & [= ] & _). }
    destruct (mp_CreateFormFile sofar fieldName fileName) as [header [e|]] eqn:Eh.
    { split; [done|]. intros (? & ? & ? & [= <-] & Hh & _). congruence. }
    destruct (mp_PartWrite (sofar +:+ header) (s_data reader)) as [copied [e|]] eqn:Ec.
    { split; [done|]. intros (? & ? & ? & [= <-] & Hh & Hc & _). congruence. }
    destruct (s_fail reader) as [e|].
    { split; [done|]. by intros (? & ? & ? & _ & _ & _ & [= ]). }
    split; [|done]. intros _. by exists sofar, header, copied.
  - intros e pre k v post sofar out -> Hpre Hw. rewrite Hp. unfold first_failure.
    rewrite (fields_in_turn_app pre _ _ _ Hpre). cbn [fields_in_turn].
    by rewrite Hw.
  - intros e sofar header Hf Hh. rewrite Hp. unfold first_failure.
    by rewrite Hf, Hh.
  - intros e sofar header copied Hf Hh Hc. rewrite Hp. unfold first_failure.
    by rewrite Hf, Hh, Hc.
  - intros e sofar header copied Hf Hh Hc Hr.
    assert (Hff : first_failure fieldName fileName reader extra = Some e).
    { unfold first_failure. by rewrite Hf, Hh, Hc. }
    by rewrite Hp, Hend, Hff.
  - intros e b w req Hpe bF.
    assert (Hbody : body bF = Some (PipeReader p)) by reflexivity.
    assert (Hende : body_end (PipeReader p) = Some (Some e)).
    { cbn [body_end]. by rewrite Hpe. }
    split; [reflexivity|]. split; [exact Hbody|]. split; [exact Hende|].
    intros Hreq.
    assert (Hrb : req_Body req = BodyOf (PipeReader p)).
    { by apply (built_request_body bF req (PipeReader p)). }
    assert (Hfail : body_failure (req_Body req) = Some e).
    { rewrite Hrb. cbn [body_failure]. by rewrite Hende. }
    split; [exact Hfail|]. intros w' Hhook Htransport.
    destruct (Htransport (client_at_dispatch bF w') (hooked bF req) e)
      as (res & at_url & Hsend); [by rewrite Hhook|].
    destruct (Do_run_failure bF w' req res at_url e Hreq Hsend)
      as (Hnil & _ & Hrep).
    split; [exact Hnil|]. exists at_url. exact Hrep.
Qed.
End Producer.

(** A file whose content stream breaks after five bytes, uploaded to the
    sample server, whose transport reads the body. *)
Lemma File_producer_closes_witness :
  let content := {| s_data := "hello"; s_fail := Some "disk error" |} in
  let b := Sample.request_to "POST" "/up" false in
  let p := producer (P := Sample.platform) "f" "a.txt" content [("k", "v")] in
  let bF := (File (P := Sample.platform) "f" "a.txt" content [("k", "v")] b
               Sample.world).1 in
  fields_in_turn (P := Sample.platform) [("k", "v")] "" = ("--b;k=v;", None)
  ∧ mp_CreateFormFile (Platform := Sample.platform) "--b;k=v;" "f" "a.txt"
    = ("--b;f@a.txt;", None)
  ∧ mp_PartWrite (Platform := Sample.platform) ("--b;k=v;" +:+ "--b;f@a.txt;")
      (s_data content) = ("hello", None)
  ∧ s_fail content = Some "disk error"
  ∧ wrerr p = Some (pipe_failure "disk error")
  ∧ built_request (P := Sample.platform) bF
    = inl (apply_headers (P := Sample.platform) bF
             (Sample.request_for "POST" "/up" (BodyOf (PipeReader p))))
  ∧ (∀ cl rq e', body_failure (req_Body rq) = Some e' →
                 ∃ res at_url,
                   client_send (Platform := Sample.platform) cl rq
                   = SendErr res at_url e')
  ∧ (Do (P := Sample.platform) bF Sample.world).1 = None
  ∧ ∃ at_url,
      all_reported (trace (Do (P := Sample.platform) bF Sample.world).2)
      = [(0%nat, "Post " +:+ Sample.quote at_url +:+ ": disk error")].
Proof.
  intros content b p bF.
  pose proof (File_producer_closes (P := Sample.platform)
                "f" "a.txt" content [("k", "v")])
    as (_ & _ & _ & _ & _ & _ & Hmid & Hdo).
  assert (H1 : fields_in_turn (P := Sample.platform) [("k", "v")] ""
               = ("--b;k=v;", None)) by (vm_compute; reflexivity).
  assert (H2 : mp_CreateFormFile (Platform := Sample.platform) "--b;k=v;" "f" "a.txt"
               = ("--b;f@a.txt;", None)) by (vm_compute; reflexivity).
  assert (H3 : mp_PartWrite (Platform := Sample.platform)
                 ("--b;k=v;" +:+ "--b;f@a.txt;") (s_data content) = ("hello", None))
    by (vm_compute; reflexivity).
  assert (H4 : s_fail content = Some "disk error") by reflexivity.
  assert (Hp : wrerr p = Some (pipe_failure "disk error"))
    by exact (proj1 (Hmid _ _ _ _ H1 H2 H3 H4)).
  assert (Hreq : built_request (P := Sample.platform) bF
                 = inl (apply_headers (P := Sample.platform) bF
                          (Sample.request_for "POST" "/up" (BodyOf (PipeReader p)))))
    by (vm_compute; reflexivity).
  assert (Ht : ∀ cl rq e', body_failure (req_Body rq) = Some e' →
                 ∃ res at_url,
                   client_send (Platform := Sample.platform) cl rq
                   = SendErr res at_url e').
  { intros cl rq e' Hfail. exists None, (Sample.to_string (req_URL rq)).
    cbn [client_send Sample.platform]. unfold Sample.send. by rewrite Hfail. }
  repeat (split; [assumption|]).
  destruct (Hdo "disk error" b Sample.world
              (apply_headers (P := Sample.platform) bF
                 (Sample.request_for "POST" "/up" (BodyOf (PipeReader p)))) Hp)
    as (_ & _ & _ & Hrest).
  destruct (Hrest Hreq) as (_ & Hrun).
  destruct (Hrun Sample.world eq_refl Ht) as (Hnil & at_url & Hrep).
  split; [exact Hnil|]. exists at_url. exact Hrep.
Defined.

(** C4 as the specification words it fails: with a transport that answers
    without reading the body to its end, the goroutine closes the pipe with
    the read error of the content stream and the body ends in it, yet [Do]
    returns a wrapper and the sink gets nothing. *)
Lemma File_read_error_can_go_unreported :
  s_fail Inputs.broken_content = Some "disk error"
  ∧ body Inputs.hasty_upload
    = Some (PipeReader {| written := "--b;k=v;--b;f@a.txt;hello";
                          wrerr := Some (pipe_failure "disk error") |})
  ∧ Response.Body <$> (Do (P := Hasty.platform) Inputs.hasty_upload Sample.world).1
    = Some "ok"
  ∧ all_reported (trace (Do (P := Hasty.platform) Inputs.hasty_upload Sample.world).2)
    = [].
Proof. repeat split; vm_compute; reflexivity. Qed.

(** ** The response wrapper *)

Lemma after_nil w : after w [] = w.
Proof. destruct w. unfold after. cbn. by rewrite app_nil_r. Qed.

Lemma take_bytes_split n s :
  (n ≤ String.length s)%nat →
  ∃ rest, s = take_bytes n s +:+ rest ∧ String.length (take_bytes n s) = n.
Proof.
  revert s. induction n as [|n IH]; intros s Hn.
  - exists s. by destruct s.
  - destruct s as [|c s]; cbn in Hn; [lia|].
    destruct (IH s) as (rest & Hs & Hl); [lia|].
    exists rest. cbn [take_bytes String.length]. split.
    + change (String c (take_bytes n s) +:+ rest)
        with (String c (take_bytes n s +:+ rest)).
      by rewrite <- Hs.
    + by rewrite Hl.
Qed.

Lemma prefix_append s t : String.prefix s (s +:+ t) = true.
Proof.
  induction s as [|c s IH]; [by destruct t|].
  change (String c s +:+ t) with (String c (s +:+ t)). simpl.
  destruct (Ascii.ascii_dec c c); [exact IH|done].
Qed.

Lemma strings_Contains_prefix s substr :
  String.prefix substr s = true → strings_Contains s substr = true.
Proof. intros Hp. destruct s; cbn [strings_Contains]; by rewrite Hp. Qed.

(** A string contains each of the pieces it is put together from. *)
Lemma strings_Contains_here s post : strings_Contains (s +:+ post) s = true.
Proof. apply strings_Contains_prefix, prefix_append. Qed.

Lemma strings_Contains_self s : strings_Contains s s = true.
Proof.
  apply strings_Contains_prefix. induction s as [|c s IH]; [done|].
  simpl. destruct (Ascii.ascii_dec c c); [exact IH|done].
Qed.

Lemma strings_Contains_skip pre s substr :
  strings_Contains s substr = true → strings_Contains (pre +:+ s) substr = true.
Proof.
  intros Hs. induction pre as [|c pre IH]; [done|].
  change (String c pre +:+ s) with (String c (pre +:+ s)).
  cbn [strings_Contains]. rewrite IH. apply orb_true_r.
Qed.

Ltac find_piece :=
  repeat first [ apply strings_Contains_here
               | apply strings_Contains_self
               | apply strings_Contains_skip ].

Lemma status_flag (code : Z) statuses ok :
  foldl (λ ok status, if bool_decide (code = status) then true else ok) ok statuses
  = ok || bool_decide (code ∈ statuses).
Proof.
  revert ok. induction statuses as [|s statuses IH]; intros ok.
  - cbn. rewrite bool_decide_eq_false_2; [by rewrite orb_false_r|].
    apply not_elem_of_nil.
  - cbn [foldl]. rewrite IH. destruct (decide (code = s)) as [->|Hne].
    + rewrite bool_decide_eq_true_2 by done. cbn.
      rewrite bool_decide_eq_true_2; [by rewrite orb_true_r|]. apply list_elem_of_here.
    + rewrite bool_decide_eq_false_2 by done. f_equal.
      apply bool_decide_ext. rewrite elem_of_cons. tauto.
Qed.

Section Wrapper.
Context {P : Platform}.

(** C7, as the code has it. The excerpt of a body of at most 100 bytes is
    the body, with no ellipsis (so at exactly 100 bytes); the excerpt of a
    longer body is its first 100 bytes followed by three dots. The length
    is [len(r.Body)], a count of bytes, not of characters. *)
Theorem bodyExcerpt_boundary (r : Response.t) :
  ((String.length (Response.Body r) ≤ 100)%nat
   ∧ Response.bodyExcerpt r = Response.Body r)
  ∨ ((100 < String.length (Response.Body r))%nat
     ∧ ∃ first rest,
         Response.Body r = first +:+ rest
         ∧ String.length first = 100%nat
         ∧ Response.bodyExcerpt r = first +:+ "...").
Proof.
  unfold Response.bodyExcerpt.
  destruct (100 <? String.length (Response.Body r))%nat eqn:Hlen.
  - apply Nat.ltb_lt in Hlen. right. split; [done|].
    destruct (take_bytes_split 100 (Response.Body r)) as (rest & Hs & Hl); [lia|].
    by exists (take_bytes 100 (Response.Body r)), rest.
  - apply Nat.ltb_ge in Hlen. by left.
Qed.

(** C6. [Status] with no expected code reports nothing; with expected
    codes one of which is the status of the response it reports nothing;
    with expected codes none of which is the status it reports one error,
    whose message holds the list of codes, the status and the excerpt of
    the body. It returns the wrapper in every case. *)
Theorem Status_reports_one_mismatch (statuses : list Z) (r : Response.t)
    (w : World) :
  let code := res_StatusCode (Response.raw r) in
  let msg := Response.err_message r
               ("expected status " +:+ fmt_v statuses +:+ " got " +:+ fmt_d code
                +:+ ": " +:+ Response.bodyExcerpt r) in
  Response.Status statuses r w
    = (r, if decide (statuses = [] ∨ code ∈ statuses) then w
          else after w [EvOnError (Response.onError r) msg])
  ∧ strings_Contains msg (fmt_v statuses) = true
  ∧ strings_Contains msg (fmt_d code) = true
  ∧ strings_Contains msg (Response.bodyExcerpt r) = true.
Proof.
  intros code msg. split.
  - unfold Response.Status. fold code. rewrite status_flag. cbn [orb].
    destruct statuses as [|s statuses].
    { cbn. rewrite decide_True by auto. reflexivity. }
    cbn [length Nat.ltb Nat.leb].
    destruct (decide (code ∈ s :: statuses)) as [Hin|Hnin].
    + rewrite bool_decide_eq_true_2 by done. cbn [negb].
      rewrite decide_True by auto. reflexivity.
    + rewrite bool_decide_eq_false_2 by done. cbn [negb].
      rewrite decide_False by (intros [?|?]; done). reflexivity.
  - subst msg. unfold Response.err_message. repeat split; find_piece.
Qed.
(** C5. [JSON] reports a Content-Type that does not begin with
    application/json and decodes the buffered body all the same. When the
    decoding succeeds it returns the target as decoded, whether or not a
    mismatch was reported; when it fails it reports that error too and
    returns nil. *)
Theorem Response_JSON_decodes_despite_mismatch (j : Value) (r : Response.t)
    (w : World) :
  let contentType := Header_Get "Content-Type" (res_Header (Response.raw r)) in
  let mismatch :=
    if String.prefix "application/json" contentType then []
    else [EvOnError (Response.onError r)
            (Response.err_message r
               ("Content-Type is not application/json, got " +:+ contentType
                +:+ ": " +:+ Response.bodyExcerpt r))] in
  match json_Unmarshal (Response.Body r) j with
  | (j', None) => Response.JSON j r w = (Some j', after w mismatch)
  | (_, Some e) =>
      Response.JSON j r w
      = (None,
         after w (mismatch
                  ++ [EvOnError (Response.onError r) (Response.err_message r e)]))
  end.
Proof.
  intros contentType mismatch. unfold Response.JSON. fold contentType.
  unfold mbind, M_bind, Response.err, emit, mret, M_ret, after. subst mismatch.
  destruct (json_Unmarshal (Response.Body r) j) as [j' [e|]];
    destruct (String.prefix "application/json" contentType);
    cbn [negb clients trace app]; rewrite <- ?app_assoc, ?app_nil_r;
    try reflexivity; by destruct w.
Qed.
End Wrapper.

(** C7 as the specification words it fails: a body of 100 characters, the
    last of which takes two bytes, is not its own excerpt; the cut falls
    after 100 bytes, in the middle of that character, and the dots follow. *)
Lemma bodyExcerpt_cuts_inside_a_character :
  utf8_RuneCount Inputs.hundred_characters = 100%nat
  ∧ String.length Inputs.hundred_characters = 101%nat
  ∧ Response.bodyExcerpt
      (Sample.response 200 "text/plain" Inputs.hundred_characters)
    = Sample.repeat_byte 99 "x" +:+ String (ascii_of_nat 195) "..."
  ∧ Response.bodyExcerpt
      (Sample.response 200 "text/plain" Inputs.hundred_characters)
    ≠ Inputs.hundred_characters.
Proof.
  split; [vm_compute; reflexivity|]. split; [vm_compute; reflexivity|].
  split; [vm_compute; reflexivity|]. vm_compute. discriminate.
Qed.

(** ** The package at work on the sample platform *)

Section Examples.
Import Sample.
#[local] Existing Instance platform.

(** The earlier [Q] replaces at every pair: a key given twice in one call
    keeps its last value only. *)
Example Legacy_Q_keeps_last :
  query (Legacy.Q ["a"; "1"; "a"; "2"] builder world).1 !! "a" = Some ["2"]
  ∧ query (Q ["a"; "1"; "a"; "2"] builder world).1 !! "a" = Some ["1"; "2"].
Proof. split; vm_compute; reflexivity. Qed.

Example Header_overwrites :
  headers ((b ← Header ["X"; "1"] builder; Header ["x"; "2"] b) world).1
  = {[ "X" := ["2"] ]}.
Proof. vm_compute. reflexivity. Qed.

Example Status_409_against_200_201 :
  all_reported (trace (Response.Status [200; 201]%Z
                         (response 409 "text/plain" "Already exists") world).2)
  = [(0%nat, "GET /: expected status [200 201] got 409: Already exists")].
Proof. vm_compute. reflexivity. Qed.

Example Status_without_codes :
  Response.Status [] (response 500 "text/plain" "boom") world
  = (response 500 "text/plain" "boom", world).
Proof. reflexivity. Qed.

Example excerpt_of_100_and_101 :
  Response.bodyExcerpt (response 200 "text/plain" (repeat_byte 100 "x"))
  = repeat_byte 100 "x"
  ∧ Response.bodyExcerpt (response 200 "text/plain" (repeat_byte 101 "x"))
    = repeat_byte 100 "x" +:+ "...".
Proof. split; vm_compute; reflexivity. Qed.

Example JSON_of_text_plain :
  Response.JSON VNull (response 200 "text/plain" "1") world
  = (Some (VInt 1),
     after world
       [EvOnError 0 "GET /: Content-Type is not application/json, got text/plain: 1"]).
Proof. vm_compute. reflexivity. Qed.

Example GET_409_Contains :
  let run := b ← GET "/" builder;
             r ← Do b;
             match r with
             | Some r => r ← Response.Status [409%Z] r;
                         r ← Response.Contains "Already exists" r;
                         mret (Some r)
             | None => mret None
             end in
  all_reported (trace (run world).2) = []
  ∧ Response.Body <$> (run world).1 = Some ("Already exists" +:+ newline).
Proof. split; vm_compute; reflexivity. Qed.

Example JSON_round_trip :
  let run := b ← POST "/x" builder;
             b ← JSON (VInt 1) b;
             r ← Do b;
             match r with
             | Some r => Response.JSON VNull r
             | None => mret None
             end in
  (run world).1 = Some (VInt 1) ∧ all_reported (trace (run world).2) = [].
Proof. split; vm_compute; reflexivity. Qed.

(** After a failed serialisation [Do] goes on: the request it dispatches
    carries [http.NoBody], and the body set earlier is gone. *)
Example Do_after_failed_JSON :
  let run := b ← POST "/x" builder;
             b ← Body (Some (StringsReader "kept?")) b;
             b ← JSON VChan b;
             r ← Do b;
             mret (body b, Response.Body <$> r) in
  (run world).1 = (Some (BytesReader ""), Some "")
  ∧ all_reported (trace (run world).2)
    = [(0%nat, "json: unsupported type: chan int")]
  ∧ omap (λ ev, match ev with
                | EvDispatch _ _ req => Some (req_Body req)
                | _ => None
                end) (trace (run world).2) = [NoBody].
Proof. repeat split; vm_compute; reflexivity. Qed.

(** A response whose body breaks off: reported, and no wrapper. *)
Example Do_body_read_error :
  let run := b ← GET "/cut" builder; Do b in
  (run world).1 = None
  ∧ all_reported (trace (run world).2) = [(0%nat, "unexpected EOF")].
Proof. split; vm_compute; reflexivity. Qed.
End Examples.

(** * Further properties *)

Section Base64Examples.
Example base64_vectors :
  base64_EncodeToString "" = ""
  ∧ base64_EncodeToString "f" = "Zg=="
  ∧ base64_EncodeToString "fo" = "Zm8="
  ∧ base64_EncodeToString "foo" = "Zm9v"
  ∧ base64_EncodeToString "foobar" = "Zm9vYmFy"
  ∧ base64_EncodeToString "Aladdin:open sesame" = "QWxhZGRpbjpvcGVuIHNlc2FtZQ==".
Proof. repeat split; vm_compute; reflexivity. Qed.
End Base64Examples.

(** ** Headers, form fields and credentials *)

Lemma Set_loop_lookup (f : string → string) ps (h : gmap string (list string)) k :
  foldl (λ h kv, Values.Set_ (f kv.1) kv.2 h) h ps !! k
  = match last_value_for f k ps with
    | Some v => Some [v]
    | None => h !! k
    end.
Proof.
  revert h. induction ps as [|[k1 v1] ps IH]; intros h; [done|].
  cbn [foldl fst snd]. rewrite IH. unfold last_value_for.
  cbn [omap list_omap fst snd]. unfold Values.Set_.
  destruct (decide (f k1 = k)) as [->|Hne].
  - rewrite last_cons, lookup_insert_eq. by destruct (last _).
  - by rewrite lookup_insert_ne.
Qed.

Lemma values_for_elem k v ps : (k, v) ∈ ps → v ∈ values_for k ps.
Proof.
  induction ps as [|[k1 v1] ps IH]; [by intros ?%elem_of_nil|].
  intros [[= -> ->]|Hin]%elem_of_cons; unfold values_for;
    cbn [omap list_omap fst snd].
  - rewrite decide_True by done. apply list_elem_of_here.
  - destruct (decide (k1 = k)); [apply list_elem_of_further|]; by apply IH.
Qed.

Lemma Q_lookup args b w key :
  query (Q args b w).1 !! key =
    match values_for key (pairs args) with
    | [] => query b !! key
    | vs => Some vs
    end.
Proof.
  unfold Q, mret, M_ret. cbn [fst with_query query].
  rewrite for_pairs_pairs, Q_loop_lookup, lookup_empty.
  by destruct (values_for key (pairs args)).
Qed.

Section Fields.
Context {P : Platform}.

(** X1. After [Header], a key that the call mentions (up to the canonical
    form of header keys) holds one value, the last the call pairs with it,
    whatever it held before; every other key is untouched, and nothing is
    reported. *)
Theorem Header_last_value_wins (args : list string) (b : ReqBuilder) (w : World)
    (k key : string) :
  headers (Header args b w).1 !! k
    = match last_value_for CanonicalMIMEHeaderKey k (pairs args) with
      | Some v => Some [v]
      | None => headers b !! k
      end
  ∧ Header_Get key (headers (Header args b w).1)
    = match last_value_for CanonicalMIMEHeaderKey (CanonicalMIMEHeaderKey key)
              (pairs args) with
      | Some v => v
      | None => Header_Get key (headers b)
      end
  ∧ (Header args b w).2 = w.
Proof.
  assert (Hl : ∀ k, headers (Header args b w).1 !! k
               = match last_value_for CanonicalMIMEHeaderKey k (pairs args) with
                 | Some v => Some [v]
                 | None => headers b !! k
                 end).
  { intros k'. unfold Header, mret, M_ret. cbn [fst with_headers headers].
    rewrite for_pairs_pairs. unfold Header_Set. apply Set_loop_lookup. }
  split; [apply Hl|]. split; [|done].
  unfold Header_Get, Values.Get. rewrite Hl. by destruct (last_value_for _ _ _).
Qed.

(** X2. [Form] sends the encoding of a map in which every key the call
    mentions holds one value, the last the call pairs with it, and no other
    key; it sets the Content-Type to application/x-www-form-urlencoded,
    replaces whatever body the builder had, and reports nothing. *)
Theorem Form_encodes_last_values (args : list string) (b : ReqBuilder) (w : World) :
  ∃ q : gmap string (list string),
    body (Form args b w).1 = Some (StringsReader (Values_Encode q))
    ∧ (∀ k, q !! k = (λ v, [v]) <$> last_value_for (λ k, k) k (pairs args))
    ∧ Header_Get "Content-Type" (headers (Form args b w).1)
      = "application/x-www-form-urlencoded"
    ∧ (Form args b w).2 = w
    ∧ query (Form args b w).1 = query b.
Proof.
  exists (for_pairs Values.Set_ args ∅). rewrite Form_unfold.
  cbn [fst snd body headers query with_headers_body].
  split; [done|]. split; [|split; [|done]].
  - intros k. rewrite for_pairs_pairs.
    rewrite (Set_loop_lookup (λ k, k)), lookup_empty.
    by destruct (last_value_for _ _ _).
  - unfold Header_Get, Header_Set, Values.Get, Values.Set_.
    by rewrite lookup_insert_eq.
Qed.

Lemma Auth_headers auth b w :
  Auth auth b w
  = (with_headers (<[CanonicalMIMEHeaderKey "Authorization" := [auth]]> (headers b)) b,
     w).
Proof. reflexivity. Qed.

(** X3. [Auth], [Bearer] and [Basic] all write the one Authorization
    header: after any of them it holds exactly the credentials of that call
    ("Bearer " and the token, "Basic " and the base64 of user:password), so
    of two such calls the later wins; no other header changes. *)
Theorem credentials_overwrite (b : ReqBuilder) (w : World)
    (auth token username password : string) :
  let authorization (r : ReqBuilder * World) :=
    headers r.1 !! CanonicalMIMEHeaderKey "Authorization" in
  authorization (Auth auth b w) = Some [auth]
  ∧ authorization (Bearer token b w) = Some ["Bearer " +:+ token]
  ∧ authorization (Basic username password b w)
    = Some ["Basic " +:+ base64_EncodeToString (username +:+ ":" +:+ password)]
  ∧ authorization ((b1 ← Basic username password b; Bearer token b1) w)
    = Some ["Bearer " +:+ token]
  ∧ authorization ((b1 ← Bearer token b; Basic username password b1) w)
    = Some ["Basic " +:+ base64_EncodeToString (username +:+ ":" +:+ password)]
  ∧ ∀ k, k ≠ CanonicalMIMEHeaderKey "Authorization" →
         headers (Auth auth b w).1 !! k = headers b !! k.
Proof.
  intros authorization. subst authorization. cbv beta.
  unfold Basic, Bearer, mbind, M_bind. rewrite !Auth_headers.
  cbn [fst headers with_headers]. rewrite !lookup_insert_eq.
  repeat split. intros k Hk. by rewrite lookup_insert_ne.
Qed.
End Fields.

(** X4. The [Q] of request.go: a key the call mentions holds one value, the
    last the call pairs with it (a key given twice does not become
    multi-valued); every other key is untouched, and nothing is reported. *)
Theorem Legacy_Q_last_value_wins (args : list string) (b : ReqBuilder) (w : World)
    (k : string) :
  query (Legacy.Q args b w).1 !! k
    = match last_value_for (λ k, k) k (pairs args) with
      | Some v => Some [v]
      | None => query b !! k
      end
  ∧ (Legacy.Q args b w).2 = w.
Proof.
  split; [|done]. unfold Legacy.Q, mret, M_ret. cbn [fst with_query query].
  rewrite for_pairs_pairs. apply (Set_loop_lookup (λ k, k)).
Qed.

(** X5. [Q] never removes a key and never leaves a key without a value:
    if every key of the builder has at least one value, so has every key
    afterwards; and each pair of the call is found in the query. *)
Theorem Q_keeps_values (args : list string) (b : ReqBuilder) (w : World) :
  (∀ k vs, query b !! k = Some vs → vs ≠ []) →
  (∀ k vs, query (Q args b w).1 !! k = Some vs → vs ≠ [])
  ∧ (∀ k, is_Some (query b !! k) → is_Some (query (Q args b w).1 !! k))
  ∧ (∀ k v, (k, v) ∈ pairs args →
            ∃ vs, query (Q args b w).1 !! k = Some vs ∧ v ∈ vs).
Proof.
  intros Hne. split; [|split].
  - intros k vs. rewrite Q_lookup.
    destruct (values_for k (pairs args)) as [|x l] eqn:E; [apply Hne|].
    by intros [= <-].
  - intros k Hk. rewrite Q_lookup. by destruct (values_for k (pairs args)).
  - intros k v Hin. rewrite Q_lookup. apply values_for_elem in Hin.
    destruct (values_for k (pairs args)) as [|x l]; [by apply elem_of_nil in Hin|].
    eauto.
Qed.

Lemma Q_keeps_values_witness :
  (∀ k vs, query Sample.builder !! k = Some vs → vs ≠ [])
  ∧ ∃ vs, query (Q ["a"; "1"; "a"; "2"] Sample.builder Sample.world).1 !! "a" = Some vs
          ∧ "2" ∈ vs.
Proof.
  assert (Hne : ∀ k vs, query Sample.builder !! k = Some vs → vs ≠ []).
  { intros k vs Hk. cbn in Hk. by rewrite lookup_empty in Hk. }
  split; [exact Hne|].
  destruct (Q_keeps_values ["a"; "1"; "a"; "2"] Sample.builder Sample.world Hne)
    as (_ & _ & Hin).
  apply Hin. cbn [pairs]. apply list_elem_of_further, list_elem_of_here.
Defined.

(** ** Building the request *)

Lemma Add_loop_lookup (i : string) vs (r : gmap string (list string)) k :
  foldl (λ acc v, Values.Add i v acc) r vs !! k
  = if decide (i = k)
    then match vs with
         | [] => r !! k
         | _ => Some (default [] (r !! k) ++ vs)
         end
    else r !! k.
Proof.
  revert r. induction vs as [|v vs IH]; intros r; [by case_decide|].
  cbn [foldl]. rewrite IH. unfold Values.Add.
  destruct (decide (i = k)) as [->|Hne].
  - rewrite lookup_insert_eq. cbn [default]. unfold id.
    destruct vs; [done|]. by rewrite <- app_assoc.
  - by rewrite lookup_insert_ne.
Qed.

(** The double loop adds, after what a key holds, the values the map has
    for it, when the keys of the map are left as they are by [f]. *)
Lemma add_all_lookup (f : string → string) (m acc : gmap string (list string)) k :
  (∀ k' vs, m !! k' = Some vs → f k' = k') →
  add_all (λ key v h, Values.Add (f key) v h) m acc !! k
  = match m !! k with
    | Some (x :: vs) => Some (default [] (acc !! k) ++ x :: vs)
    | _ => acc !! k
    end.
Proof.
  unfold add_all. intros Hf. revert Hf k.
  apply (map_fold_weak_ind
           (λ r m, (∀ k' vs, m !! k' = Some vs → f k' = k') →
                   ∀ k, r !! k = match m !! k with
                                 | Some (x :: vs) => Some (default [] (acc !! k) ++ x :: vs)
                                 | _ => acc !! k
                                 end)).
  - intros _ k. by rewrite lookup_empty.
  - intros i x m0 r Hi IH Hf k.
    assert (Hfi : f i = i) by (apply (Hf i x); by rewrite lookup_insert_eq).
    assert (Hf0 : ∀ k' vs, m0 !! k' = Some vs → f k' = k').
    { intros k' vs Hk. apply (Hf k' vs). rewrite lookup_insert_ne; [done|].
      intros ->. congruence. }
    specialize (IH Hf0). rewrite Hfi, Add_loop_lookup.
    destruct (decide (i = k)) as [->|Hne].
    + rewrite lookup_insert_eq, IH, Hi. by destruct x.
    + by rewrite lookup_insert_ne, IH.
Qed.

Section Building.
Context {P : Platform}.

Lemma NewRequestWithContext_inl ctx method url body req :
  NewRequestWithContext ctx method url body = inl req →
  req_Header req = ∅
  ∧ req_Method req = (if String.eqb method "" then "GET" else method)
  ∧ validMethod (req_Method req) = true
  ∧ ctx = Some (req_ctx req)
  ∧ req_Host req = u_Host (req_URL req)
  ∧ (req_Body req, req_ContentLength req)
    = match body with
      | None => (BodyNil, 0%Z)
      | Some (BytesReader s) =>
          (if (Z.of_nat (String.length s) =? 0)%Z then NoBody
           else BodyOf (BytesReader s), Z.of_nat (String.length s))
      | Some (StringsReader s) =>
          (if (Z.of_nat (String.length s) =? 0)%Z then NoBody
           else BodyOf (StringsReader s), Z.of_nat (String.length s))
      | Some r => (BodyOf r, 0%Z)
      end.
Proof.
  unfold NewRequestWithContext.
  destruct (validMethod _) eqn:Hv; [|done]. cbn [negb].
  destruct ctx as [ctx|]; [|done].
  destruct (url_Parse url) as [u|]; [|done].
  destruct body as [[s|s|p|s]|]; intros [= <-]; cbn; by rewrite ?Hv.
Qed.

Lemma built_request_inl b req :
  built_request b = inl req →
  ∃ u req0,
    url_Parse (baseURL b +:+ url b) = inl u
    ∧ NewRequestWithContext (Some (default Background (context b))) (method b)
        (url_String (resolve_query b u)) (body b) = inl req0
    ∧ req = apply_headers b req0.
Proof.
  unfold built_request. destruct (url_Parse _) as [u|]; [|done].
  replace (match context b with Some ctx => ctx | None => Background end)
    with (default Background (context b)) by (by destruct (context b)).
  destruct (NewRequestWithContext _ _ _ _) as [req0|] eqn:E; [|done].
  intros [= <-]. eauto.
Qed.

(** X6. [Do] merges the query of the builder into that of the URL only
    when the builder has one; what it then encodes holds, for every key,
    the values the URL had followed by those of the builder, so neither
    side loses a value. The rest of the URL is kept. *)
Theorem query_merge_is_additive (b : ReqBuilder) (u : URL) (k : string) :
  resolve_query b u
    = (if decide (query b = ∅) then u
       else {| u_Scheme := u_Scheme u; u_Host := u_Host u; u_Path := u_Path u;
               u_RawQuery :=
                 Values_Encode (add_all Values.Add (query b) (url_Query u));
               u_Fragment := u_Fragment u |})
  ∧ add_all Values.Add (query b) (url_Query u) !! k
    = match query b !! k with
      | Some (x :: vs) => Some (default [] (url_Query u !! k) ++ x :: vs)
      | _ => url_Query u !! k
      end.
Proof.
  split.
  - unfold resolve_query. destruct (decide (query b = ∅)) as [He|Hne].
    + by rewrite He, map_size_empty.
    + destruct (size (query b)) eqn:Hs; [|done].
      by apply map_size_empty_iff in Hs.
  - by apply (add_all_lookup (λ k, k)).
Qed.

(** X7. The headers of the builder reach the request as they are: when
    the keys the builder holds are canonical (as those [Header] stores
    are), the request [Do] builds has, for every key, the values the
    builder has, and no other header. *)
Theorem headers_reach_request (b : ReqBuilder) (req : Request) (k : string) :
  (∀ k' vs, headers b !! k' = Some vs → CanonicalMIMEHeaderKey k' = k') →
  built_request b = inl req →
  req_Header req !! k = match headers b !! k with
                        | Some (x :: vs) => Some (x :: vs)
                        | _ => None
                        end.
Proof.
  intros Hcanon (u & req0 & _ & Hnew & ->)%built_request_inl.
  apply NewRequestWithContext_inl in Hnew as (Hh & _).
  unfold apply_headers. cbn [req_Header]. rewrite Hh.
  unfold Header_Add. rewrite (add_all_lookup CanonicalMIMEHeaderKey) by done.
  rewrite lookup_empty. by destruct (headers b !! k) as [[|x vs]|].
Qed.

(** X8. The request [Do] builds takes its Host from the Host header of
    the builder when that is set and not empty, and from its URL
    otherwise; [Header("Host", h)] sets that header. *)
Theorem Host_header_overrides (b : ReqBuilder) (req : Request) :
  built_request b = inl req →
  req_Host req
    = (if String.eqb (Header_Get "Host" (headers b)) ""
       then u_Host (req_URL req)
       else Header_Get "Host" (headers b))
  ∧ ∀ h w, Header_Get "Host" (headers (Header ["Host"; h] b w).1) = h.
Proof.
  intros (u & req0 & _ & Hnew & ->)%built_request_inl.
  apply NewRequestWithContext_inl in Hnew as (_ & _ & _ & _ & Hhost & _).
  split.
  - unfold apply_headers. cbn [req_Host req_URL]. by rewrite Hhost.
  - intros h w. rewrite Header_single. cbn [fst headers with_headers].
    unfold Header_Get, Header_Set, Values.Get, Values.Set_.
    by rewrite lookup_insert_eq.
Qed.

(** X9. A builder whose method was never set sends a GET; otherwise the
    request carries the method of the builder, which is then a valid HTTP
    token. The request carries the context of the builder, or the
    background context when none was given. *)
Theorem request_defaults (b : ReqBuilder) (req : Request) :
  built_request b = inl req →
  req_Method req = (if String.eqb (method b) "" then "GET" else method b)
  ∧ validMethod (req_Method req) = true
  ∧ req_ctx req = default Background (context b).
Proof.
  intros (u & req0 & _ & Hnew & ->)%built_request_inl.
  apply NewRequestWithContext_inl in Hnew as (_ & Hm & Hv & Hc & _).
  unfold apply_headers. cbn [req_Method req_ctx].
  split; [done|]. split; [done|]. by injection Hc.
Qed.

(** X10. After a [JSON] whose serialisation succeeds, the request [Do]
    builds announces the length of the serialised bytes and carries them
    as its body; when there are no bytes its body is [http.NoBody]. *)
Theorem JSON_body_reaches_request (j : Value) (b : ReqBuilder) (w : World)
    (jsonBytes : string) (req : Request) :
  json_Marshal j = inl jsonBytes →
  built_request (JSON j b w).1 = inl req →
  req_ContentLength req = Z.of_nat (String.length jsonBytes)
  ∧ req_Body req = (if String.eqb jsonBytes "" then NoBody
                    else BodyOf (BytesReader jsonBytes)).
Proof.
  intros Hj (u & req0 & _ & Hnew & ->)%built_request_inl.
  apply NewRequestWithContext_inl in Hnew as (_ & _ & _ & _ & _ & Hbody).
  rewrite JSON_unfold in Hbody. cbn [fst body with_headers_body] in Hbody.
  unfold Marshal in Hbody. rewrite Hj in Hbody. cbn [fst] in Hbody.
  unfold apply_headers. cbn [req_ContentLength req_Body].
  injection Hbody as Hb Hl. split; [done|]. rewrite Hb.
  destruct jsonBytes as [|c s]; [done|]. cbn [String.eqb String.length].
  destruct (Z.of_nat _ =? 0)%Z eqn:E; [|done].
  apply Z.eqb_eq in E. cbn [String.length] in E. lia.
Qed.

(** X11. A failure before the dispatch ends [Do] at once: the error goes
    to the sink, nil comes back, no hook is called, nothing is dispatched
    and no client is written. An URL that does not parse is such a failure,
    and so is a method that is not an HTTP token. *)
Theorem Do_build_errors (b : ReqBuilder) (w : World) :
  (∀ err, built_request b = inr err →
          Do b w = (None, after w [EvOnError (onError b) err]))
  ∧ (∀ err, url_Parse (baseURL b +:+ url b) = inr err → built_request b = inr err)
  ∧ (∀ u, url_Parse (baseURL b +:+ url b) = inl u →
          method b ≠ "" → validMethod (method b) = false →
          built_request b
          = inr ("net/http: invalid method " +:+ strconv_Quote (method b))).
Proof.
  split; [|split].
  - intros err Herr. by rewrite Do_run, Herr.
  - intros err Herr. unfold built_request. by rewrite Herr.
  - intros u Hu Hm Hv. unfold built_request, NewRequestWithContext.
    rewrite Hu. apply String.eqb_neq in Hm. by rewrite Hm, Hv.
Qed.
End Building.

Lemma headers_reach_request_witness :
  (∀ k' vs, headers (Fixtures.tagged "/x") !! k' = Some vs →
            CanonicalMIMEHeaderKey (Platform := Sample.platform) k' = k')
  ∧ built_request (P := Sample.platform) (Fixtures.tagged "/x")
    = inl (Fixtures.tagged_request "/x")
  ∧ req_Header (Fixtures.tagged_request "/x") !! "X-Http-Tester" = Some ["true"].
Proof.
  assert (Hc : ∀ k' vs, headers (Fixtures.tagged "/x") !! k' = Some vs →
                        CanonicalMIMEHeaderKey (Platform := Sample.platform) k' = k').
  { intros k' vs Hk. cbn [headers Fixtures.tagged] in Hk.
    apply lookup_singleton_Some in Hk as [<- _]. vm_compute. reflexivity. }
  assert (Hreq : built_request (P := Sample.platform) (Fixtures.tagged "/x")
                 = inl (Fixtures.tagged_request "/x"))
    by (vm_compute; reflexivity).
  split; [exact Hc|]. split; [exact Hreq|].
  exact (headers_reach_request (P := Sample.platform) (Fixtures.tagged "/x")
           (Fixtures.tagged_request "/x") "X-Http-Tester" Hc Hreq).
Defined.

Lemma Host_header_overrides_witness :
  built_request (P := Sample.platform) (Fixtures.tagged "/x")
    = inl (Fixtures.tagged_request "/x")
  ∧ req_Host (Fixtures.tagged_request "/x") = "".
Proof.
  assert (Hreq : built_request (P := Sample.platform) (Fixtures.tagged "/x")
                 = inl (Fixtures.tagged_request "/x"))
    by (vm_compute; reflexivity).
  split; [exact Hreq|].
  exact (proj1 (Host_header_overrides (P := Sample.platform) _ _ Hreq)).
Defined.

Lemma request_defaults_witness :
  built_request (P := Sample.platform) (Sample.request_to "" "/x" false)
    = inl (Sample.request_for "GET" "/x" BodyNil)
  ∧ req_Method (Sample.request_for "GET" "/x" BodyNil) = "GET".
Proof.
  assert (Hreq : built_request (P := Sample.platform) (Sample.request_to "" "/x" false)
                 = inl (Sample.request_for "GET" "/x" BodyNil))
    by (vm_compute; reflexivity).
  split; [exact Hreq|].
  exact (proj1 (request_defaults (P := Sample.platform) _ _ Hreq)).
Defined.

Lemma JSON_body_reaches_request_witness :
  json_Marshal (Platform := Sample.platform) (Sample.VInt 1) = inl "1"
  ∧ ∃ req,
      built_request (P := Sample.platform)
        (JSON (P := Sample.platform) (Sample.VInt 1)
           (Sample.request_to "POST" "/x" false) Sample.world).1 = inl req
      ∧ req_ContentLength req = 1%Z
      ∧ req_Body req = BodyOf (BytesReader "1").
Proof.
  assert (Hj : json_Marshal (Platform := Sample.platform) (Sample.VInt 1) = inl "1")
    by reflexivity.
  split; [exact Hj|]. eexists. split; [vm_compute; reflexivity|].
  refine (JSON_body_reaches_request (P := Sample.platform) (Sample.VInt 1)
            (Sample.request_to "POST" "/x" false) Sample.world "1" _ Hj _).
  vm_compute. reflexivity.
Defined.

Lemma Do_build_errors_witness :
  url_Parse (Platform := Sample.platform) ("" +:+ "/x")
    = inl {| u_Scheme := ""; u_Host := ""; u_Path := "/x"; u_RawQuery := "";
             u_Fragment := "" |}
  ∧ validMethod "GE T" = false
  ∧ Do (P := Sample.platform) (Sample.request_to "GE T" "/x" false) Sample.world
    = (None,
       after Sample.world
         [EvOnError 0 ("net/http: invalid method " +:+ Sample.quote "GE T")]).
Proof.
  assert (Hu : url_Parse (Platform := Sample.platform) ("" +:+ "/x")
               = inl {| u_Scheme := ""; u_Host := ""; u_Path := "/x";
                        u_RawQuery := ""; u_Fragment := "" |}) by reflexivity.
  assert (Hv : validMethod "GE T" = false) by reflexivity.
  split; [exact Hu|]. split; [exact Hv|].
  destruct (Do_build_errors (P := Sample.platform)
              (Sample.request_to "GE T" "/x" false) Sample.world)
    as (Hdo & _ & Hm).
  apply Hdo. exact (Hm _ Hu ltac:(discriminate) Hv).
Defined.

(** ** The outcomes of a dispatch *)

Section Outcomes.
Context {P : Platform}.

(** X12. When the transport answers and the body of the answer can be
    read, [Do] returns a wrapper holding the answer, the whole body, the
    URL the answer came from, the request as the before hook left it and
    the sink of the builder. The hooks are called around the dispatch with
    that same request, the after hook with the answer and no error; the
    body is closed and nothing is reported. *)
Theorem Do_wraps_the_response (b : ReqBuilder) (w : World) (req : Request)
    (res : HTTPResponse) :
  built_request b = inl req →
  client_send (client_at_dispatch b w) (hooked b req) = SendOk res →
  s_fail (res_Body res) = None →
  (Do b w).1
    = Some {| Response.raw := res; Response.req := hooked b req;
              Response.onError := onError b;
              Response.Body := s_data (res_Body res);
              Response.URL := req_URL (res_Request res) |}
  ∧ trace (Do b w).2
    = trace w ++ before_events b req
      ++ [EvDispatch (client b) (CheckRedirect (client_at_dispatch b w))
            (hooked b req)]
      ++ match afterRequest b with
         | Some f => [EvAfterRequest f (hooked b req) (Some res) None]
         | None => []
         end
      ++ [EvBodyClose]
  ∧ all_reported (trace (Do b w).2) = all_reported (trace w).
Proof.
  intros Hreq Hsend Hbody. rewrite Do_run, Hreq. cbv zeta.
  unfold dispatch_result. rewrite Hsend. cbn [fst snd trace].
  unfold wrapped, response_events, after_events, before_events.
  rewrite Hbody. cbn [result_response result_error].
  split; [done|]. split; [by rewrite <- !app_assoc|].
  rewrite !all_reported_app.
  destruct (beforeRequest b), (afterRequest b); cbn; by rewrite app_nil_r.
Qed.

(** X13. When the transport answers but the body of the answer breaks
    off, [Do] returns nil although the after hook was told of an answer
    and no error; the read error goes to the sink as it is (with no method
    or URL put before it), once, and the body is closed after that. *)
Theorem Do_body_read_failure (b : ReqBuilder) (w : World) (req : Request)
    (res : HTTPResponse) (err : error) :
  built_request b = inl req →
  client_send (client_at_dispatch b w) (hooked b req) = SendOk res →
  s_fail (res_Body res) = Some err →
  (Do b w).1 = None
  ∧ trace (Do b w).2
    = trace w ++ before_events b req
      ++ [EvDispatch (client b) (CheckRedirect (client_at_dispatch b w))
            (hooked b req)]
      ++ match afterRequest b with
         | Some f => [EvAfterRequest f (hooked b req) (Some res) None]
         | None => []
         end
      ++ [EvOnError (onError b) err; EvBodyClose]
  ∧ all_reported (trace (Do b w).2) = all_reported (trace w) ++ [(onError b, err)].
Proof.
  intros Hreq Hsend Hbody. rewrite Do_run, Hreq. cbv zeta.
  unfold dispatch_result. rewrite Hsend. cbn [fst snd trace].
  unfold wrapped, response_events, after_events, before_events.
  rewrite Hbody. cbn [result_response result_error].
  split; [done|]. split; [by rewrite <- !app_assoc|].
  rewrite !all_reported_app.
  destruct (beforeRequest b), (afterRequest b); reflexivity.
Qed.

Lemma Do_events b w :
  ∃ evs,
    trace (Do b w).2 = trace w ++ evs
    ∧ (∀ s e, (s, e) ∈ all_reported evs → s = onError b)
    ∧ (length (all_reported evs) ≤ 1)%nat
    ∧ ∀ r, (Do b w).1 = Some r → Response.onError r = onError b.
Proof.
  rewrite Do_run. destruct (built_request b) as [req|err].
  - cbv zeta. unfold before_events, after_events, response_events, wrapped.
    destruct (dispatch_result _ _ _) as [res|res err]; cbn [fst snd trace];
      eexists; (split; [reflexivity|]);
      rewrite !all_reported_app;
      destruct (beforeRequest b), (afterRequest b);
      try destruct (s_fail (res_Body res)); cbn;
      (split; [intros sk ek Hin;
               repeat (apply elem_of_cons in Hin as [[= -> _]|Hin]; [done|]);
               by apply elem_of_nil in Hin|]);
      (split; [lia|]); intros rw; try done; by intros [= <-].
  - exists [EvOnError (onError b) err]. split; [done|]. cbn. split.
    + intros s e [[= -> _]|Hin%elem_of_nil]%elem_of_cons; done.
    + split; [lia|done].
Qed.

(** X14. [OnError] moves every later report of the builder to the new
    sink: a [Do] after it reports there and nowhere else (at most once),
    the wrapper it returns reports there too, and so does [JSON]. *)
Theorem OnError_redirects_reports (f : nat) (b : ReqBuilder) (w0 w : World)
    (j : Value) :
  let b' := (OnError f b w0).1 in
  (∃ evs,
     trace (Do b' w).2 = trace w ++ evs
     ∧ (∀ s e, (s, e) ∈ all_reported evs → s = f)
     ∧ (length (all_reported evs) ≤ 1)%nat
     ∧ ∀ r, (Do b' w).1 = Some r → Response.onError r = f)
  ∧ all_reported (trace (JSON j b' w).2)
    = all_reported (trace w)
      ++ match json_Marshal j with
         | inl _ => []
         | inr err => [(f, err)]
         end
  ∧ (OnError f b w0).2 = w0.
Proof.
  intros b'. split; [exact (Do_events b' w)|]. split; [|done].
  rewrite JSON_unfold. cbn [snd trace]. rewrite all_reported_app.
  unfold Marshal. by destruct (json_Marshal j).
Qed.
End Outcomes.

Lemma Do_wraps_the_response_witness :
  let b := Sample.request_to "POST" "/x" false in
  let req := Sample.request_for "POST" "/x" BodyNil in
  let res := Sample.answer 200 "application/json" "" req in
  built_request (P := Sample.platform) b = inl req
  ∧ client_send (Platform := Sample.platform) (client_at_dispatch b Sample.world)
      (hooked b req) = SendOk res
  ∧ s_fail (res_Body res) = None
  ∧ Response.Body <$> (Do (P := Sample.platform) b Sample.world).1 = Some "".
Proof.
  intros b req res.
  assert (Hreq : built_request (P := Sample.platform) b = inl req)
    by (vm_compute; reflexivity).
  assert (Hsend : client_send (Platform := Sample.platform)
                    (client_at_dispatch b Sample.world) (hooked b req) = SendOk res)
    by (vm_compute; reflexivity).
  assert (Hbody : s_fail (res_Body res) = None) by reflexivity.
  split; [exact Hreq|]. split; [exact Hsend|]. split; [exact Hbody|].
  destruct (Do_wraps_the_response (P := Sample.platform) b Sample.world req res
              Hreq Hsend Hbody) as (Hres & _).
  exact (f_equal (fmap Response.Body) Hres).
Defined.

Lemma Do_body_read_failure_witness :
  let b := Sample.request_to "GET" "/cut" false in
  let req := Sample.request_for "GET" "/cut" BodyNil in
  let res := {| res_StatusCode := 200; res_Header := ∅;
                res_Body := {| s_data := "par"; s_fail := Some "unexpected EOF" |};
                res_Request := req |} in
  built_request (P := Sample.platform) b = inl req
  ∧ client_send (Platform := Sample.platform) (client_at_dispatch b Sample.world)
      (hooked b req) = SendOk res
  ∧ s_fail (res_Body res) = Some "unexpected EOF"
  ∧ (Do (P := Sample.platform) b Sample.world).1 = None.
Proof.
  intros b req res.
  assert (Hreq : built_request (P := Sample.platform) b = inl req)
    by (vm_compute; reflexivity).
  assert (Hsend : client_send (Platform := Sample.platform)
                    (client_at_dispatch b Sample.world) (hooked b req) = SendOk res)
    by (vm_compute; reflexivity).
  assert (Hbody : s_fail (res_Body res) = Some "unexpected EOF") by reflexivity.
  split; [exact Hreq|]. split; [exact Hsend|]. split; [exact Hbody|].
  exact (proj1 (Do_body_read_failure (P := Sample.platform) b Sample.world req res
                  _ Hreq Hsend Hbody)).
Defined.

(** ** The earlier [Do] *)

Section Earlier.
Context {P : Platform}.

(** X15. The [Do] of request.go does what the current [Do] does on a
    builder with no context, provided that, when the builder has no query
    of its own, parsing and encoding the query of the URL gives it back
    (the earlier [Do] encodes it again even then, the current one leaves
    it alone). *)
Theorem earlier_Do_agrees (b : ReqBuilder) (w : World) :
  context b = None →
  (∀ u, url_Parse (baseURL b +:+ url b) = inl u → query b = ∅ →
        Values_Encode (url_Query u) = u_RawQuery u) →
  RequestGo.Do b w = Do b w.
Proof.
  intros Hctx Hround. unfold RequestGo.Do, Do. rewrite Hctx.
  destruct (url_Parse _) as [u|err] eqn:Hu; [|done].
  assert (Hres : {| u_Scheme := u_Scheme u; u_Host := u_Host u;
                    u_Path := u_Path u;
                    u_RawQuery :=
                      Values_Encode (add_all Values.Add (query b) (url_Query u));
                    u_Fragment := u_Fragment u |} = resolve_query b u).
  { unfold resolve_query. destruct (size (query b)) eqn:Hs; [|done].
    apply map_size_empty_iff in Hs. cbn.
    rewrite Hs at 1. unfold add_all. rewrite map_fold_empty.
    rewrite (Hround u eq_refl Hs). by destruct u. }
  cbv zeta. by rewrite Hres.
Qed.
End Earlier.

Lemma earlier_Do_agrees_witness :
  context (Fixtures.tagged "/") = None
  ∧ (∀ u, url_Parse (Platform := Sample.platform) ("" +:+ "/") = inl u →
          query (Fixtures.tagged "/") = ∅ →
          Values_Encode (Platform := Sample.platform)
            (url_Query (P := Sample.platform) u) = u_RawQuery u)
  ∧ RequestGo.Do (P := Sample.platform) (Fixtures.tagged "/") Sample.world
    = Do (P := Sample.platform) (Fixtures.tagged "/") Sample.world.
Proof.
  assert (Hc : context (Fixtures.tagged "/") = None) by reflexivity.
  assert (Hr : ∀ u, url_Parse (Platform := Sample.platform) ("" +:+ "/") = inl u →
                    query (Fixtures.tagged "/") = ∅ →
                    Values_Encode (Platform := Sample.platform)
                      (url_Query (P := Sample.platform) u) = u_RawQuery u).
  { intros u Hu _. vm_compute in Hu. injection Hu as <-. reflexivity. }
  split; [exact Hc|]. split; [exact Hr|].
  exact (earlier_Do_agrees (P := Sample.platform) (Fixtures.tagged "/")
           Sample.world Hc Hr).
Defined.

(** ** The bytes of the multipart body *)

Section Multipart.
Context {P : Platform}.

Lemma pipe_Write_open out p :
  wrerr p = None → pipe_Write out p = {| written := written p +:+ out; wrerr := None |}.
Proof. intros Hopen. unfold pipe_Write. by rewrite Hopen. Qed.

Lemma write_fields_written extra p p1 :
  wrerr p = None →
  write_fields extra p = (p1, None) →
  written p1
  = foldl (λ sofar kv, sofar +:+ (mp_WriteField sofar kv.1 kv.2).1) (written p) extra
  ∧ wrerr p1 = None.
Proof.
  revert p. induction extra as [|[k v] extra IH]; intros p Hopen.
  - by intros [= <-].
  - cbn [write_fields foldl fst snd].
    destruct (mp_WriteField (written p) k v) as [out [e|]] eqn:E; [done|].
    intros Hrest. apply IH in Hrest as [Hw Ho].
    + split; [|done]. rewrite Hw. unfold pipe_Write. by rewrite Hopen.
    + by rewrite pipe_Write_wrerr.
Qed.

(** X16. When the fields and the header of the file part get through,
    the body the reader sees is, in this order, the fields in the order
    the map yields them, the header of the file part and what was copied
    of the content, and then the closing boundary if and only if the copy
    succeeded: after a failed copy nothing more reaches the pipe. *)
Theorem File_sections_in_order (fieldName fileName : string) (reader : Stream)
    (extra : list (string * string)) (p1 : Pipe) (header copied : string)
    (werr : option error) :
  let p := producer fieldName fileName reader extra in
  write_fields extra {| written := ""; wrerr := None |} = (p1, None) →
  mp_CreateFormFile (written p1) fieldName fileName = (header, None) →
  mp_PartWrite (written p1 +:+ header) (s_data reader) = (copied, werr) →
  written p1
    = foldl (λ sofar kv, sofar +:+ (mp_WriteField sofar kv.1 kv.2).1) "" extra
  ∧ written p
    = match werr, s_fail reader with
      | None, None =>
          ((written p1 +:+ header) +:+ copied)
          +:+ (mp_Close ((written p1 +:+ header) +:+ copied)).1
      | _, _ => (written p1 +:+ header) +:+ copied
      end.
Proof.
  intros p Hf Hh Hc.
  destruct (write_fields_written extra {| written := ""; wrerr := None |} p1
              eq_refl Hf) as [Hw Hopen].
  split; [exact Hw|]. subst p. unfold producer. cbv zeta. rewrite Hf, Hh.
  rewrite (pipe_Write_open header p1 Hopen). unfold io_Copy.
  cbn [written]. rewrite Hc. rewrite pipe_Write_open by done. cbn [written].
  destruct werr as [e|]; [|destruct (s_fail reader) as [e|]];
    cbn [close_if_nil]; unfold writer_Close, pipe_Close, pipe_CloseWithError;
    cbn [wrerr written]; unfold pipe_Write; cbn [wrerr written]; reflexivity.
Qed.
End Multipart.

Lemma File_sections_in_order_witness :
  let content := {| s_data := "hello"; s_fail := None |} in
  let p1 := {| written := "--b;k=v;"; wrerr := None |} in
  write_fields (P := Sample.platform) [("k", "v")] {| written := ""; wrerr := None |}
    = (p1, None)
  ∧ mp_CreateFormFile (Platform := Sample.platform) (written p1) "f" "a.txt"
    = ("--b;f@a.txt;", None)
  ∧ mp_PartWrite (Platform := Sample.platform) (written p1 +:+ "--b;f@a.txt;")
      (s_data content) = ("hello", None)
  ∧ written (producer (P := Sample.platform) "f" "a.txt" content [("k", "v")])
    = "--b;k=v;--b;f@a.txt;hello--b--".
Proof.
  intros content p1.
  assert (H1 : write_fields (P := Sample.platform) [("k", "v")]
                 {| written := ""; wrerr := None |} = (p1, None))
    by (vm_compute; reflexivity).
  assert (H2 : mp_CreateFormFile (Platform := Sample.platform) (written p1)
                 "f" "a.txt" = ("--b;f@a.txt;", None)) by (vm_compute; reflexivity).
  assert (H3 : mp_PartWrite (Platform := Sample.platform)
                 (written p1 +:+ "--b;f@a.txt;") (s_data content) = ("hello", None))
    by (vm_compute; reflexivity).
  split; [exact H1|]. split; [exact H2|]. split; [exact H3|].
  exact (proj2 (File_sections_in_order (P := Sample.platform) "f" "a.txt" content
                  [("k", "v")] p1 _ _ _ H1 H2 H3)).
Defined.

(** ** Assertions on the body and the headers *)

Lemma prefix_spec a s : String.prefix a s = true ↔ ∃ post, s = a +:+ post.
Proof.
  split.
  - revert s. induction a as [|c a IH]; intros s Hp.
    + by exists s.
    + destruct s as [|c' s]; [done|]. simpl in Hp.
      destruct (Ascii.ascii_dec c c') as [<-|]; [|done].
      destruct (IH s Hp) as [post ->]. by exists post.
  - intros [post ->]. apply prefix_append.
Qed.

Lemma strings_Contains_spec s substr :
  strings_Contains s substr = true ↔ ∃ pre post, s = pre +:+ substr +:+ post.
Proof.
  split.
  - induction s as [|c s IH]; cbn [strings_Contains]; intros Hc.
    + rewrite orb_false_r in Hc. apply prefix_spec in Hc as [post ->].
      by exists "", post.
    + apply orb_true_iff in Hc as [Hp|Hc].
      * apply prefix_spec in Hp as [post ->]. by exists "", post.
      * destruct (IH Hc) as (pre & post & ->). by exists (String c pre), post.
  - intros (pre & post & ->). apply strings_Contains_skip, strings_Contains_here.
Qed.

Lemma length_append a b :
  String.length (a +:+ b) = (String.length a + String.length b)%nat.
Proof.
  induction a as [|c a IH]; [done|].
  change (String c a +:+ b) with (String c (a +:+ b)). cbn [String.length].
  by rewrite IH.
Qed.

Lemma take_bytes_length n s : (String.length (take_bytes n s) ≤ n)%nat.
Proof.
  revert s. induction n as [|n IH]; intros s; [done|].
  destruct s as [|c s]; cbn [take_bytes String.length]; [lia|].
  specialize (IH s). lia.
Qed.

Section Assertions.
Context {P : Platform}.

(** X17. [Contains] reports nothing exactly when the body can be cut
    into a part before, the text looked for and a part after (so it never reports
    for the empty text); otherwise it reports once that the body does not
    contain the text, with the excerpt. It returns the wrapper either way. *)
Theorem Contains_reports_iff_absent (substr : string) (r : Response.t) (w : World) :
  ((∃ pre post, Response.Body r = pre +:+ substr +:+ post)
   ∧ Response.Contains substr r w = (r, w))
  ∨ ((¬ ∃ pre post, Response.Body r = pre +:+ substr +:+ post)
     ∧ Response.Contains substr r w
       = (r, after w [EvOnError (Response.onError r)
                        (Response.err_message r
                           ("body does not contain " +:+ substr +:+ ": "
                            +:+ Response.bodyExcerpt r))])).
Proof.
  unfold Response.Contains, Response.BodyStr.
  destruct (strings_Contains (Response.Body r) substr) eqn:Hc; cbn [negb].
  - left. split; [by apply strings_Contains_spec|done].
  - right. split; [|done]. intros Hex%strings_Contains_spec. congruence.
Qed.

(** [Eq] reports nothing exactly when the body is the expected
    text, byte for byte; otherwise it reports once, with the expected text
    and the excerpt. It returns the wrapper either way. *)
Theorem Eq_reports_iff_different (expected : string) (r : Response.t) (w : World) :
  (Response.Body r = expected ∧ Response.Eq expected r w = (r, w))
  ∨ (Response.Body r ≠ expected
     ∧ Response.Eq expected r w
       = (r, after w [EvOnError (Response.onError r)
                        (Response.err_message r
                           ("body does not equal " +:+ expected +:+ ": "
                            +:+ Response.bodyExcerpt r))])).
Proof.
  unfold Response.Eq, Response.BodyStr.
  destruct (String.eqb_spec (Response.Body r) expected) as [He|Hne]; cbn [negb].
  - by left.
  - by right.
Qed.

(** X18. [HeaderEq] compares the expected value with the first value of
    the header, looked up under the canonical form of the key, and with the
    empty text when the response has no such header; it reports once when
    they differ, naming the key, the value found and the value expected,
    and nothing when they agree. *)
Theorem HeaderEq_compares_first_value (key value : string) (r : Response.t)
    (w : World) :
  let found :=
    match res_Header (Response.raw r) !! CanonicalMIMEHeaderKey key with
    | Some (x :: _) => x
    | _ => ""
    end in
  (found = value ∧ Response.HeaderEq key value r w = (r, w))
  ∨ (found ≠ value
     ∧ Response.HeaderEq key value r w
       = (r, after w [EvOnError (Response.onError r)
                        (Response.err_message r
                           ("header " +:+ key +:+ ": expected " +:+ found
                            +:+ " to equal " +:+ value))])).
Proof.
  intros found. unfold Response.HeaderEq, Header_Get, Values.Get. fold found.
  destruct (String.eqb_spec found value) as [He|Hne]; cbn [negb].
  - by left.
  - by right.
Qed.

(** X19. [XML] accepts a Content-Type that begins with application/xml
    or with text/xml and reports any other; it decodes the buffered body
    all the same, returns the target as decoded when that succeeds, and
    reports the decoding error and returns nil when it fails. *)
Theorem Response_XML_decodes_despite_mismatch (j : Value) (r : Response.t)
    (w : World) :
  let contentType := Header_Get "Content-Type" (res_Header (Response.raw r)) in
  let mismatch :=
    if String.prefix "application/xml" contentType
       || String.prefix "text/xml" contentType then []
    else [EvOnError (Response.onError r)
            (Response.err_message r
               ("Content-Type is not application/xml or text/xml, got "
                +:+ contentType +:+ ": " +:+ Response.bodyExcerpt r))] in
  match xml_Unmarshal (Response.Body r) j with
  | (j', None) => Response.XML j r w = (Some j', after w mismatch)
  | (_, Some e) =>
      Response.XML j r w
      = (None,
         after w (mismatch
                  ++ [EvOnError (Response.onError r) (Response.err_message r e)]))
  end.
Proof.
  intros contentType mismatch. unfold Response.XML. fold contentType.
  unfold mbind, M_bind, Response.err, emit, mret, M_ret, after. subst mismatch.
  destruct (xml_Unmarshal (Response.Body r) j) as [j' [e|]];
    destruct (String.prefix "application/xml" contentType),
             (String.prefix "text/xml" contentType);
    cbn [negb andb orb clients trace app]; rewrite <- ?app_assoc, ?app_nil_r;
    try reflexivity; by destruct w.
Qed.

(** X20. The excerpt never holds more than 103 bytes, whatever the size
    of the body, and it begins as the body does: the two agree on their
    first 100 bytes. *)
Theorem bodyExcerpt_is_bounded (r : Response.t) :
  (String.length (Response.bodyExcerpt r) ≤ 103)%nat
  ∧ take_bytes 100 (Response.bodyExcerpt r) = take_bytes 100 (Response.Body r).
Proof.
  unfold Response.bodyExcerpt.
  destruct (100 <? String.length (Response.Body r))%nat eqn:Hlen.
  - apply Nat.ltb_lt in Hlen.
    destruct (take_bytes_split 100 (Response.Body r)) as (rest & Hs & Hl); [lia|].
    split.
    + rewrite length_append, Hl. cbn. lia.
    + generalize dependent (take_bytes 100 (Response.Body r)). intros first _ Hl.
      clear -Hl. revert first Hl. generalize 100%nat as n.
      induction n as [|n IH]; intros [|c first] Hl; cbn in Hl; try done.
      change (String c first +:+ "...") with (String c (first +:+ "...")).
      cbn [take_bytes]. f_equal. apply IH. lia.
  - apply Nat.ltb_ge in Hlen. split; [lia|done].
Qed.

(** X21. An assertion never ends the chain and never touches a client:
    [Status], [Contains], [Eq] and [HeaderEq] each return the wrapper they
    were given and add to the trace at most one event, a report to the
    sink of the wrapper whose message begins with the method and the URL of
    the request. *)
Theorem assertions_only_report (r : Response.t) (w : World)
    (statuses : list Z) (substr expected key value : string) :
  let quiet (res : Response.t * World) :=
    res.1 = r
    ∧ clients res.2 = clients w
    ∧ (trace res.2 = trace w
       ∨ ∃ e, trace res.2
              = trace w ++ [EvOnError (Response.onError r)
                              (req_Method (Response.req r) +:+ " "
                               +:+ url_String (req_URL (Response.req r))
                               +:+ ": " +:+ e)]) in
  quiet (Response.Status statuses r w)
  ∧ quiet (Response.Contains substr r w)
  ∧ quiet (Response.Eq expected r w)
  ∧ quiet (Response.HeaderEq key value r w).
Proof.
  intros quiet. subst quiet. cbv beta.
  unfold Response.Status, Response.Contains, Response.Eq, Response.HeaderEq,
    Response.err, Response.err_message, mbind, M_bind, emit, mret, M_ret.
  repeat split;
    repeat match goal with
           | |- context [if ?c then _ else _] => destruct c
           end; cbn [fst snd clients trace]; eauto.
Qed.
End Assertions.

(** ** The redirect policy of other builders *)

Section Policy.
Context {P : Platform}.

(** X22. Whatever the builder and however [Do] ends, also when it gives
    up before the dispatch, every client holds afterwards the value it held
    before; and a [Do] without [NoFollow] that reaches the dispatch
    dispatches under the policy the client has, not under one of its own. *)
Theorem Do_leaves_every_client (b : ReqBuilder) (w : World) :
  (∀ c, clients (Do b w).2 !!! c = clients w !!! c)
  ∧ ∀ req, built_request b = inl req → noFollow b = false →
           dispatched_under (client b) (trace (Do b w).2)
           = dispatched_under (client b) (trace w)
             ++ [CheckRedirect (clients w !!! client b)].
Proof.
  split; [apply Do_clients|]. intros req Hreq Hno.
  rewrite (Do_dispatched_under _ _ _ Hreq). unfold client_at_dispatch.
  by rewrite Hno.
Qed.
End Policy.

Lemma Do_leaves_every_client_witness :
  let b := {| baseURL := ""; url := "/redirect"; method := "GET"; query := ∅;
              headers := ∅; noFollow := false; body := None; client := 1;
              beforeRequest := None; afterRequest := None; context := None;
              onError := 0 |} in
  built_request (P := Sample.platform) b
    = inl (Sample.request_for "GET" "/redirect" BodyNil)
  ∧ noFollow b = false
  ∧ dispatched_under 1 (trace (Do (P := Sample.platform) b Sample.world).2)
    = [Some (CallerPolicy 7)].
Proof.
  intros b.
  assert (Hreq : built_request (P := Sample.platform) b
                 = inl (Sample.request_for "GET" "/redirect" BodyNil))
    by (vm_compute; reflexivity).
  split; [exact Hreq|]. split; [reflexivity|].
  exact (proj2 (Do_leaves_every_client (P := Sample.platform) b Sample.world)
           _ Hreq eq_refl).
Defined.
